(** * StaticMixtureAgent: routing a batch of experience to the sub-agents

    A shallow embedding of
    [tf_agents/bandits/agents/static_mixture_agent.py]: the helper
    [_dynamic_partition_of_nested_tensors], the constructor
    [StaticMixtureAgent.__init__] and the training step
    [StaticMixtureAgent._train], together with the TensorFlow primitives
    they call. *)

From Stdlib Require Import ZArith QArith Lia.
From stdpp Require Import base tactics option list strings.

Set Warnings "-register-all".
Close Scope Q_scope.

(** ** Exceptions and fallible computations *)

(** The Python exceptions the program can meet.  [ValueError] carries its
    message, because the constructor's diagnostics are told apart by it. *)
Inductive exn : Type :=
  | ValueError (msg : string)
  | IndexError
  | KeyError (key : string)
  | TypeError
  | InvalidArgumentError.

Inductive result (A : Type) : Type :=
  | Ok (a : A)
  | Raise (e : exn).
Arguments Ok {A} a.
Arguments Raise {A} e.

Definition bindR {A B} (m : result A) (f : A → result B) : result B :=
  match m with
  | Ok a => f a
  | Raise e => Raise e
  end.

Declare Scope result_scope.
Delimit Scope result_scope with R.
Bind Scope result_scope with result.
Notation "x <- m ; k" := (bindR m (λ x, k))
  (at level 20, m at level 100, k at level 200, only parsing) : result_scope.
Notation "' pat <- m ; k" := (bindR m (λ pat, k))
  (at level 20, pat pattern, m at level 100, k at level 200, only parsing)
  : result_scope.
Local Open Scope result_scope.

Definition is_Ok {A} (r : result A) : Prop := ∃ a, r = Ok a.

(** ** Tensors *)

(** A tensor is a scalar or a sequence of sub-tensors along its leading
    dimension.  The element values are opaque to the routing code (it only
    moves rows around and reads the integer labels), so integers stand for
    them. *)
Inductive tensor : Type :=
  | Scalar (v : Z)
  | Rows (rs : list tensor).

Section tensor_ind.
Variable P : tensor → Prop.
Hypothesis Hscalar : ∀ v, P (Scalar v).
Hypothesis Hrows : ∀ rs, Forall P rs → P (Rows rs).

Fixpoint tensor_ind' (t : tensor) : P t :=
  match t with
  | Scalar v => Hscalar v
  | Rows rs =>
      Hrows rs ((fix go (l : list tensor) : Forall P l :=
                   match l with
                   | [] => Forall_nil_2 P
                   | x :: l' => Forall_cons_2 P x l' (tensor_ind' x) (go l')
                   end) rs)
  end.
End tensor_ind.

(** [tf.zeros_like] on one tensor. *)
Fixpoint zeros_like (t : tensor) : tensor :=
  match t with
  | Scalar _ => Scalar 0%Z
  | Rows rs => Rows (zeros_like <$> rs)
  end.



(** Number of rows along the leading dimension. *)
Definition num_rows (t : tensor) : option nat :=
  match t with
  | Scalar _ => None
  | Rows rs => Some (length rs)
  end.

(** ** Nested structures ([tf.nest]) *)

(** The containers [tf.nest] walks through.  A namedtuple lists its field
    names in declaration order, a dict its keys in sorted order: the order
    in which [tf.nest] visits the entries. *)
Inductive container : Type :=
  | PyList
  | PyTuple
  | PyNamedTuple (fields : list string)
  | PyDict (keys : list string).

Inductive nest (A : Type) : Type :=
  | Leaf (a : A)
  | Node (c : container) (kids : list (nest A)).
Arguments Leaf {A} a.
Arguments Node {A} c kids.

Section nest_ind.
Context {A : Type}.
Variable P : nest A → Prop.
Hypothesis Hleaf : ∀ a, P (Leaf a).
Hypothesis Hnode : ∀ c kids, Forall P kids → P (Node c kids).

Fixpoint nest_ind' (x : nest A) : P x :=
  match x with
  | Leaf a => Hleaf a
  | Node c kids =>
      Hnode c kids ((fix go (l : list (nest A)) : Forall P l :=
                       match l with
                       | [] => Forall_nil_2 P
                       | y :: l' => Forall_cons_2 P y l' (nest_ind' y) (go l')
                       end) kids)
  end.
End nest_ind.

(** [tf.nest.map_structure]. *)
Fixpoint map_structure {A B} (f : A → B) (x : nest A) : nest B :=
  match x with
  | Leaf a => Leaf (f a)
  | Node c kids => Node c (map_structure f <$> kids)
  end.

(** The tree shape of a structure: the structure with its leaves stripped. *)
Definition shape {A} (x : nest A) : nest unit := map_structure (λ _, tt) x.

(** [tf.nest.flatten]: the leaves, left to right. *)
Fixpoint flatten {A} (x : nest A) : list A :=
  match x with
  | Leaf a => [a]
  | Node _ kids => mjoin (flatten <$> kids)
  end.

(** The recursive worker of [tf.nest.pack_sequence_as]: rebuilds
    [structure] from the front of [flat] and returns what is left. *)
Fixpoint pack_from {A B} (structure : nest A) (flat : list B)
    : option (nest B * list B) :=
  match structure with
  | Leaf _ =>
      match flat with
      | b :: rest => Some (Leaf b, rest)
      | [] => None
      end
  | Node c kids =>
      '(kids', rest) ←
        (fix go (kids : list (nest A)) (flat : list B)
             : option (list (nest B) * list B) :=
           match kids with
           | [] => Some ([], flat)
           | k :: kids0 =>
               '(k', rest) ← pack_from k flat;
               '(kids', rest') ← go kids0 rest;
               Some (k' :: kids', rest')
           end) kids flat;
      Some (Node c kids', rest)
  end.

(** [tf.nest.pack_sequence_as(structure, flat_sequence)]: a [ValueError]
    unless [flat_sequence] has exactly one value per leaf of [structure]. *)
Definition pack_sequence_as {A B} (structure : nest A) (flat_sequence : list B)
    : result (nest B) :=
  if decide (length (flatten structure) = length flat_sequence) then
    match pack_from structure flat_sequence with
    | Some (packed, _) => Ok packed
    | None => Raise (ValueError "Could not pack sequence.")
    end
  else Raise (ValueError "Could not pack sequence.").

(** ** [tf.dynamic_partition] *)

(** [tf.convert_to_tensor] on an argument that already is a tensor.
    TensorFlow would also pack a list or tuple of equally shaped tensors
    into one tensor; the coordinator never hands it one (its reward and its
    mixture_agent_id are single tensors, both flattened against the one
    reward spec), and a structured argument is reported as [TypeError]. *)
Definition convert_to_tensor (x : nest tensor) : result tensor :=
  match x with
  | Leaf t => Ok t
  | Node _ _ => Raise TypeError
  end.

(** One pass over [data] along the dimensions of [partitions]: the slice of
    [data] under a label [l] is appended to output [l].  A label outside
    [0, num_partitions) and a shape of [partitions] that is not a prefix of
    the shape of [data] are rejected. *)
Fixpoint scatter (num_partitions : nat) (partitions data : tensor)
    (outputs : list (list tensor)) {struct partitions}
    : result (list (list tensor)) :=
  match partitions with
  | Scalar l =>
      if decide (0 ≤ l < Z.of_nat num_partitions)%Z
      then Ok (alter (λ out, out ++ [data]) (Z.to_nat l) outputs)
      else Raise InvalidArgumentError
  | Rows ps =>
      match data with
      | Scalar _ => Raise InvalidArgumentError
      | Rows ds =>
          (fix go (ps ds : list tensor) (outputs : list (list tensor))
               {struct ps} : result (list (list tensor)) :=
             match ps, ds with
             | [], [] => Ok outputs
             | p :: ps', d :: ds' =>
                 outputs' <- scatter num_partitions p d outputs;
                 go ps' ds' outputs'
             | _, _ => Raise InvalidArgumentError
             end) ps ds outputs
      end
  end.

(** [tf.dynamic_partition(data, partitions, num_partitions)]: a list of
    [num_partitions] tensors; output [k] stacks the slices labelled [k], in
    the order in which they occur in [data]. *)
Definition dynamic_partition (data : tensor) (partitions : nest tensor)
    (num_partitions : nat) : result (list tensor) :=
  if decide (num_partitions = 0) then Raise InvalidArgumentError
  else
    partitions <- convert_to_tensor partitions;
    outputs <- scatter num_partitions partitions data
                 (replicate num_partitions []);
    Ok (Rows <$> outputs).

(** Python's [zip] applied to the unpacked [lists], followed by
    [list(map(list, ...))]: the transpose, cut to the shortest argument; with
    no argument at all it is empty. *)
Fixpoint zip_star {A} (lists : list (list A)) : list (list A) :=
  match lists with
  | [] => []
  | l :: lists' =>
      match lists' with
      | [] => (λ x, [x]) <$> l
      | _ :: _ => zip_with cons l (zip_star lists')
      end
  end.

(** Python's list comprehension over a fallible body: the first exception
    ends it. *)
Fixpoint mapR {A B} (f : A → result B) (l : list A) : result (list B) :=
  match l with
  | [] => Ok []
  | x :: l' => y <- f x; ys <- mapR f l'; Ok (y :: ys)
  end.

(** ** [_dynamic_partition_of_nested_tensors] *)

Definition _dynamic_partition_of_nested_tensors
    (nested_tensor : nest tensor) (partitions : nest tensor)
    (num_partitions : nat)
    : result (list (nest tensor)) :=
  let flattened_tensors := flatten nested_tensor in
  partitioned_flat_tensors <-
    mapR (λ t, dynamic_partition t partitions num_partitions)
         flattened_tensors;
  let list_of_partitions := zip_star partitioned_flat_tensors in
  mapR (λ i, pack_sequence_as nested_tensor i) list_of_partitions.

(** ** Structural specs *)

(** Modelled from the spec: the tensor specs are not among the sources.
    Spec 3: structural descriptors of expected shapes and dtypes. *)
Record TensorSpec : Type := {
  spec_shape : list nat;
  spec_dtype : string;
}.

Global Instance TensorSpec_eq_dec : EqDecision TensorSpec.
Proof. solve_decision. Defined.

Global Instance container_eq_dec : EqDecision container.
Proof. solve_decision. Defined.

(** Structural equality of two structures: same containers (types and
    field names included), same leaves; what [tf.nest.assert_same_structure]
    looks at. *)
Fixpoint nest_eqb {A} `{EqDecision A} (x y : nest A) : bool :=
  match x, y with
  | Leaf a, Leaf b => bool_decide (a = b)
  | Node c kids, Node c' kids' =>
      bool_decide (c = c') &&
      (fix go (l l' : list (nest A)) : bool :=
         match l, l' with
         | [], [] => true
         | k :: l0, k' :: l0' => nest_eqb k k' && go l0 l0'
         | _, _ => false
         end) kids kids'
  | _, _ => false
  end.

(** Which containers Python's [==] compares by their items: a list with a
    list; a tuple or namedtuple with a tuple or namedtuple (a namedtuple is
    a tuple, its class and field names play no part); a dict with a dict of
    the same keys (listed in sorted order, so in the same order).  Anything
    else is unequal. *)
Definition comparable (c c' : container) : bool :=
  match c, c' with
  | PyList, PyList => true
  | (PyTuple | PyNamedTuple _), (PyTuple | PyNamedTuple _) => true
  | PyDict keys, PyDict keys' => bool_decide (keys = keys')
  | _, _ => false
  end.

(** Python's [==] on two nested specs: leaves by their own equality,
    comparable containers item by item. *)
Fixpoint py_eqb {A} `{EqDecision A} (x y : nest A) : bool :=
  match x, y with
  | Leaf a, Leaf b => bool_decide (a = b)
  | Node c kids, Node c' kids' =>
      comparable c c' &&
      (fix go (l l' : list (nest A)) : bool :=
         match l, l' with
         | [], [] => true
         | k :: l0, k' :: l0' => py_eqb k k' && go l0 l0'
         | _, _ => false
         end) kids kids'
  | _, _ => false
  end.

(** Modelled from the spec: the time step spec of
    [tf_agents.trajectories.time_step] is not among the sources.  Spec 3 and
    4.3 step 1: a structural descriptor, of which the coordinator reads the
    reward and the observation entries. *)
Record TimeStepSpec : Type := {
  ts_step_type : nest TensorSpec;
  ts_reward : nest TensorSpec;
  ts_discount : nest TensorSpec;
  ts_observation : nest TensorSpec;
}.

(** Python's [==] on two time step specs: a time step is a namedtuple, so
    entry by entry. *)
Definition time_step_spec_eqb (a b : TimeStepSpec) : bool :=
  py_eqb (ts_step_type a) (ts_step_type b) &&
  py_eqb (ts_reward a) (ts_reward b) &&
  py_eqb (ts_discount a) (ts_discount b) &&
  py_eqb (ts_observation a) (ts_observation b).

(** Modelled from the spec: the policy classes are not among the sources.
    Spec 3, SubAgent: of a sub-agent's policy the coordinator reads the
    structural spec of its auxiliary info. *)
Record Policy : Type := {
  info_spec : nest TensorSpec;
}.

(** Modelled from the spec: [mixture_policy.MixturePolicy] is not among the
    sources.  Spec 4.3: the composed selection policy is built from the
    mixture weights and the per-agent action-selection policies. *)
Record MixturePolicy : Type := {
  mp_mixture_weights : list Q;
  mp_policies : list Policy;
}.

(** Modelled from the spec: the constants [MIXTURE_AGENT_ID] and
    [SUBPOLICY_INFO] of [mixture_policy] are not among the sources.  Spec 3,
    Transition: the policy info has the two named sub-fields
    mixture_agent_id and subpolicy_info. *)
Definition MIXTURE_AGENT_ID : string := "mixture_agent_id".
Definition SUBPOLICY_INFO : string := "subpolicy_info".

(** ** Transitions *)

(** Modelled from the spec: [trajectory.Trajectory] is not among the
    sources.  Spec 3: a transition is a record of observation, action,
    policy_info, reward and discount, each a nested structure. *)
Record Trajectory : Type := {
  observation : nest tensor;
  action : nest tensor;
  policy_info : nest tensor;
  reward : nest tensor;
  discount : nest tensor;
}.

(** Modelled from the spec: [trajectory.single_step] is not among the
    sources.  Spec 4.3 step 4: a single-step transition record made of the
    given observation, action, policy info, reward and discount. *)
Definition single_step (observation action policy_info reward discount : nest tensor)
    : Trajectory :=
  {| observation := observation; action := action; policy_info := policy_info;
     reward := reward; discount := discount |}.

(** [xs[k]] on a Python list, for [k >= 0]. *)
Definition getitem {A} (xs : list A) (k : nat) : result A :=
  match xs !! k with
  | Some x => Ok x
  | None => Raise IndexError
  end.

(** [d[key]] with a string [key]: a dict gives the entry under [key] or a
    [KeyError]; a tensor, list or tuple does not take a string subscript. *)
Definition getitem_key {A} (d : nest A) (key : string) : result (nest A) :=
  match d with
  | Node (PyDict keys) kids =>
      match list_find (λ n, n = key) keys with
      | Some (i, _) =>
          match kids !! i with
          | Some v => Ok v
          | None => Raise (KeyError key)
          end
      | None => Raise (KeyError key)
      end
  | _ => Raise TypeError
  end.

(** [xs[k]] on a structure that is a Python list or tuple (the program
    subscripts nothing else by position). *)
Definition getitem_index {A} (xs : nest A) (k : nat) : result (nest A) :=
  match xs with
  | Node PyList kids | Node PyTuple kids | Node (PyNamedTuple _) kids =>
      getitem kids k
  | _ => Raise TypeError
  end.

(** [tf.zeros_like]. *)
Definition tf_zeros_like (x : nest tensor) : result (nest tensor) :=
  t <- convert_to_tensor x;
  Ok (Leaf (zeros_like t)).

(** ** Module names *)

(** [tf.Module]'s [valid_identifier]: a match of
    [^[a-zA-Z_]([a-zA-Z0-9_])*$].  A name is a Python [str] of code points
    below 256, one [ascii] each. *)
Definition is_letter_or_underscore (c : Ascii.ascii) : bool :=
  let n := Ascii.nat_of_ascii c in
  Nat.leb 65 n && Nat.leb n 90 || Nat.leb 97 n && Nat.leb n 122 || Nat.eqb n 95.

Definition is_word_char (c : Ascii.ascii) : bool :=
  let n := Ascii.nat_of_ascii c in
  is_letter_or_underscore c || Nat.leb 48 n && Nat.leb n 57.

(** The rest of the pattern: word characters up to the end, where [$] also
    matches just before a final newline. *)
Fixpoint word_chars_to_end (s : string) : bool :=
  match s with
  | EmptyString => true
  | String c rest =>
      if is_word_char c then word_chars_to_end rest
      else Nat.eqb (Ascii.nat_of_ascii c) 10 &&
           match rest with EmptyString => true | _ => false end
  end.

Definition valid_identifier (name : string) : bool :=
  match name with
  | EmptyString => false
  | String c rest => is_letter_or_underscore c && word_chars_to_end rest
  end.

Definition quote_single : Ascii.ascii := Ascii.ascii_of_nat 39.
Definition quote_double : Ascii.ascii := Ascii.ascii_of_nat 34.
Definition backslash : Ascii.ascii := Ascii.ascii_of_nat 92.

Fixpoint string_contains (c : Ascii.ascii) (s : string) : bool :=
  match s with
  | EmptyString => false
  | String c' rest => Ascii.eqb c c' || string_contains c rest
  end.

Definition hex_digit (n : nat) : Ascii.ascii :=
  Ascii.ascii_of_nat (if Nat.ltb n 10 then 48 + n else 87 + n).

(** [str.isprintable] on one code point below 256. *)
Definition is_printable (n : nat) : bool :=
  Nat.leb 32 n && Nat.ltb n 127 ||
  Nat.leb 161 n && Nat.leb n 255 && negb (Nat.eqb n 173).

(** What [repr] writes for one character inside the quotes [quote]. *)
Definition repr_char (quote c : Ascii.ascii) : string :=
  let n := Ascii.nat_of_ascii c in
  if Ascii.eqb c quote || Ascii.eqb c backslash
  then String backslash (String c EmptyString)
  else if Nat.eqb n 9 then String backslash "t"
  else if Nat.eqb n 10 then String backslash "n"
  else if Nat.eqb n 13 then String backslash "r"
  else if is_printable n then String c EmptyString
  else String backslash
         (String.append "x"
            (String (hex_digit (n / 16))
               (String (hex_digit (n mod 16)) EmptyString))).

Fixpoint repr_body (quote : Ascii.ascii) (s : string) : string :=
  match s with
  | EmptyString => EmptyString
  | String c rest => String.append (repr_char quote c) (repr_body quote rest)
  end.

(** Python's [repr] of a [str] (the [%r] of a format string): single
    quotes, unless the string holds a single quote and no double quote. *)
Definition python_repr (s : string) : string :=
  let quote :=
    if string_contains quote_single s && negb (string_contains quote_double s)
    then quote_double else quote_single in
  String quote (String.append (repr_body quote s) (String quote EmptyString)).

Definition invalid_module_name_message (name : string) : string :=
  String.append (python_repr name)
    " is not a valid module name. Module names must be valid Python identifiers (e.g. a valid class name).".

(** [tf.Module.__init__(self, name=name)] for the class
    [StaticMixtureAgent], as far as the constructor depends on it: the name
    the module stores, or the [ValueError] for a name that is not an
    identifier.  Without a name the module takes its class name in snake
    case.  Entering the name scope leaves nothing on the coordinator that the
    program reads (eager execution, where a scope name is not checked). *)
Definition Module__init__ (name : option string) : result string :=
  match name with
  | None => Ok "static_mixture_agent"
  | Some name =>
      if negb (valid_identifier name)
      then Raise (ValueError (invalid_module_name_message name))
      else Ok name
  end.

(** ** Sub-agents and the coordinator *)

Section Agents.
(** [World] holds whatever the sub-agents' training steps read and
    update (their parameters, their random state); [Loss] is the type of
    a scalar loss, with its addition and the [0] the accumulation starts
    from. *)
Variables World Loss : Type.
Variable loss_add : Loss → Loss → Loss.
Variable loss_zero : Loss.

Record LossInfo : Type := {
  loss : Loss;
  extra : unit;
}.

(** Modelled from the spec: the sub-agents' classes are not among the
    sources.  Spec 3, SubAgent: an opaque unit with a time_step_spec, an
    action_spec, a policy with its info_spec, a collect policy and a
    training entry point [train(batch) -> loss]; here [train] may raise and
    may change the world. *)
Record Agent : Type := {
  time_step_spec : TimeStepSpec;
  action_spec : nest TensorSpec;
  policy : Policy;
  collect_policy : Policy;
  train : Trajectory → World → result LossInfo * World;
}.

(** Modelled from the spec: the base class [tf_agent.TFAgent] is not among
    the sources.  Spec 4.3: the coordinator stores the agent list, their
    count, the mixture weights and the composed policy, and its own
    time_step_spec and action_spec are the ones handed to the base
    constructor, which keeps them together with the policy, the collect
    policy and the train sequence length; [_name] is the name that
    [tf.Module] keeps. *)
Record StaticMixtureAgent : Type := {
  _name : string;
  _original_info_spec : nest TensorSpec;
  _agents : list Agent;
  _num_agents : nat;
  _mixture_weights : list Q;
  _time_step_spec : TimeStepSpec;
  _action_spec : nest TensorSpec;
  _policy : MixturePolicy;
  _collect_policy : MixturePolicy;
  _train_sequence_length : option nat;
}.

(** One turn of the constructor's loop over [agents[1:]]; [!=] is Python's
    on the specs. *)
Definition check_agent (time_step_spec0 : TimeStepSpec)
    (action_spec0 _original_info_spec0 : nest TensorSpec)
    (error_message : option string) (agent : Agent) : option string :=
  let error_message :=
    if negb (py_eqb action_spec0 (action_spec agent))
    then Some "Inconsistent action specs." else error_message in
  let error_message :=
    if negb (time_step_spec_eqb time_step_spec0 (time_step_spec agent))
    then Some "Inconsistent time step specs." else error_message in
  let error_message :=
    if negb (py_eqb _original_info_spec0 (info_spec (policy agent)))
    then Some "Inconsistent info specs." else error_message in
  error_message.

(** [StaticMixtureAgent.__init__]. *)
Definition __init__ (mixture_weights : list Q) (agents : list Agent)
    (name : option string) : result StaticMixtureAgent :=
  module_name <- Module__init__ name;
  agent0 <- getitem agents 0;
  let time_step_spec0 := time_step_spec agent0 in
  let action_spec0 := action_spec agent0 in
  let _original_info_spec0 := info_spec (policy agent0) in
  let error_message := None in
  let error_message :=
    fold_left (check_agent time_step_spec0 action_spec0 _original_info_spec0)
              (drop 1 agents) error_message in
  let error_message :=
    if negb (length mixture_weights =? length agents)
    then Some "`mixture_weights` and `agents` must have equal length."
    else error_message in
  match error_message with
  | Some msg => Raise (ValueError msg)
  | None =>
      let policies := collect_policy <$> agents in
      let mixture := {| mp_mixture_weights := mixture_weights;
                        mp_policies := policies |} in
      Ok {| _name := module_name;
            _original_info_spec := _original_info_spec0;
            _agents := agents;
            _num_agents := length agents;
            _mixture_weights := mixture_weights;
            _time_step_spec := time_step_spec0;
            _action_spec := action_spec0;
            _policy := mixture;
            _collect_policy := mixture;
            _train_sequence_length := None |}
  end.

(** *** Training *)

(** Two helpers of [nest_utils] are not among the sources and are taken
    as parameters.  [flatten_multi_batched_nested_tensors tensors specs]
    merges the outer batch dimensions of every leaf into one and returns
    the flattened structure with the batch dimensions it found;
    [batch_leaf] is what [batch_nested_tensors] does to one leaf. *)
Variable flatten_multi_batched_nested_tensors :
  nest tensor → nest TensorSpec → result (nest tensor * list nat).
Variable batch_leaf : tensor → tensor.

(** Modelled from the spec: [nest_utils.batch_nested_tensors] is not among
    the sources.  Spec 4.3 step 3: each per-group structure is re-batched
    leaf by leaf and keeps its tree shape. *)
Definition batch_nested_tensors (tensors : nest tensor) : nest tensor :=
  map_structure batch_leaf tensors.

(** A record of one invocation of a sub-agent's [train]: which sub-agent,
    with which transition record, and what came back. *)
Record Call : Type := {
  call_agent : nat;
  call_experience : Trajectory;
  call_result : result LossInfo;
}.

(** Stateful computations: they may raise, they change the world, and
    they append to the record of invocations. *)
Definition M (A : Type) : Type := World * list Call → result A * (World * list Call).

Definition retM {A} (a : A) : M A := λ s, (Ok a, s).
Definition liftR {A} (r : result A) : M A := λ s, (r, s).
Definition bindM {A B} (m : M A) (f : A → M B) : M B := λ s,
  match m s with
  | (Ok a, s') => f a s'
  | (Raise e, s') => (Raise e, s')
  end.

(** [self._agents[k].train(experience)] *)
Definition invoke_train (k : nat) (agent : Agent) (experience : Trajectory)
    : M LossInfo := λ s,
  let '(r, world') := train agent experience s.1 in
  (r, (world', s.2 ++ [{| call_agent := k; call_experience := experience;
                          call_result := r |}])).

(** [for k in range(n)] with a loop-carried value. *)
Fixpoint for_range {A} (ks : list nat) (body : nat → A → M A) (a : A) : M A :=
  match ks with
  | [] => retM a
  | k :: ks' => bindM (body k a) (for_range ks' body)
  end.

Declare Scope M_scope.
Delimit Scope M_scope with M.
Notation "x <- m ; k" := (bindM m (λ x, k))
  (at level 20, m at level 100, k at level 200, only parsing) : M_scope.
Notation "' pat <- m ; k" := (bindM m (λ pat, k))
  (at level 20, pat pattern, m at level 100, k at level 200, only parsing)
  : M_scope.

(** The body of the loop of [_train]. *)
Definition train_body (self : StaticMixtureAgent)
    (partitioned_nested_observations partitioned_nested_actions : list (nest tensor))
    (partitioned_nested_infos : nest tensor)
    (partitioned_nested_rewards : list (nest tensor))
    (k : nat) (running_loss : Loss) : M Loss :=
  (observation_k <- liftR (getitem partitioned_nested_observations k);
   action_k <- liftR (getitem partitioned_nested_actions k);
   policy_info_k <- liftR (getitem_index partitioned_nested_infos k);
   reward_k <- liftR (getitem partitioned_nested_rewards k);
   discount_k <- liftR (tf_zeros_like reward_k);
   let experience :=
     single_step observation_k action_k policy_info_k reward_k discount_k in
   agent_k <- liftR (getitem (_agents self) k);
   loss_info <- invoke_train k agent_k experience;
   retM (loss_add running_loss (loss loss_info)))%M.

(** [StaticMixtureAgent._train]. *)
Definition _train (self : StaticMixtureAgent) (experience : Trajectory)
    (weights : option (nest tensor)) : M LossInfo :=
  (* del weights *)
  ('(reward, _) <- liftR (flatten_multi_batched_nested_tensors
                            (reward experience) (ts_reward (_time_step_spec self)));
   '(action, _) <- liftR (flatten_multi_batched_nested_tensors
                            (action experience) (_action_spec self));
   '(observation, _) <- liftR (flatten_multi_batched_nested_tensors
                            (observation experience)
                            (ts_observation (_time_step_spec self)));
   '(policy_choice, _) <- liftR (
       agent_id <- getitem_key (policy_info experience) MIXTURE_AGENT_ID;
       flatten_multi_batched_nested_tensors
         agent_id (ts_reward (_time_step_spec self)));
   '(original_infos, _) <- liftR (
       subpolicy_info <- getitem_key (policy_info experience) SUBPOLICY_INFO;
       flatten_multi_batched_nested_tensors
         subpolicy_info (_original_info_spec self));
   partitioned_nested_infos <- liftR (
       partitions <- _dynamic_partition_of_nested_tensors
                       original_infos policy_choice (_num_agents self);
       Ok (batch_nested_tensors (Node PyList partitions)));
   partitioned_nested_rewards <- liftR (
       partitions <- _dynamic_partition_of_nested_tensors
                       reward policy_choice (_num_agents self);
       Ok (batch_nested_tensors <$> partitions));
   partitioned_nested_actions <- liftR (
       partitions <- _dynamic_partition_of_nested_tensors
                       action policy_choice (_num_agents self);
       Ok (batch_nested_tensors <$> partitions));
   partitioned_nested_observations <- liftR (
       partitions <- _dynamic_partition_of_nested_tensors
                       observation policy_choice (_num_agents self);
       Ok (batch_nested_tensors <$> partitions));
   total <- for_range (seq 0 (_num_agents self))
              (train_body self partitioned_nested_observations
                 partitioned_nested_actions partitioned_nested_infos
                 partitioned_nested_rewards) loss_zero;
   retM {| loss := total; extra := tt |})%M.

End Agents.

Arguments loss {Loss} l.
Arguments extra {Loss} l.
Arguments time_step_spec {World Loss} a.
Arguments action_spec {World Loss} a.
Arguments policy {World Loss} a.
Arguments collect_policy {World Loss} a.
Arguments train {World Loss} a experience world.
Arguments _name {World Loss} s.
Arguments _original_info_spec {World Loss} s.
Arguments _agents {World Loss} s.
Arguments _num_agents {World Loss} s.
Arguments _mixture_weights {World Loss} s.
Arguments _time_step_spec {World Loss} s.
Arguments _action_spec {World Loss} s.
Arguments _policy {World Loss} s.
Arguments _collect_policy {World Loss} s.
Arguments _train_sequence_length {World Loss} s.
Arguments call_agent {Loss} c.
Arguments call_experience {Loss} c.
Arguments call_result {Loss} c.
Arguments check_agent {World Loss}.
Arguments __init__ {World Loss}.
Arguments retM {World Loss A}.
Arguments liftR {World Loss A}.
Arguments bindM {World Loss A B}.
Arguments invoke_train {World Loss}.
Arguments for_range {World Loss A}.
Arguments train_body {World Loss}.
Arguments _train {World Loss}.

(** ** Vocabulary of the properties *)

(** The rows of [rows] whose label in [labels] is [k], in their original
    order: what the specification calls group [k]. *)
Fixpoint rows_labelled {A} (k : nat) (labels : list Z) (rows : list A) : list A :=
  match labels, rows with
  | l :: labels', r :: rows' =>
      if decide (l = Z.of_nat k) then r :: rows_labelled k labels' rows'
      else rows_labelled k labels' rows'
  | _, _ => []
  end.

(** The positions of the rows that go to group [k]. *)
Definition group_indices (labels : list Z) (k : nat) : list nat :=
  rows_labelled k labels (seq 0 (length labels)).

(** A rank-1 integer tensor. *)
Definition vector (labels : list Z) : tensor := Rows (Scalar <$> labels).

Definition rows_of (t : tensor) : list tensor :=
  match t with
  | Scalar _ => []
  | Rows rs => rs
  end.

(** Every leaf has [m] rows along its leading dimension. *)
Definition row_aligned (m : nat) (x : nest tensor) : Prop :=
  Forall (λ t, num_rows t = Some m) (flatten x).

Definition labels_in_range (n : nat) (labels : list Z) : Prop :=
  Forall (λ l, (0 ≤ l < Z.of_nat n)%Z) labels.

(** Group [k] of a structure: every leaf keeps the rows labelled [k]. *)
Definition group_of (labels : list Z) (k : nat) (nested : nest tensor) : nest tensor :=
  map_structure (λ t, Rows (rows_labelled k labels (rows_of t))) nested.

(** The rows of the leaf at position [j] of the flattened structure. *)
Definition leaf_rows (x : nest tensor) (j : nat) : list tensor :=
  from_option rows_of [] (flatten x !! j).


(** *** The constructor's checks, as the specification lists them *)

(** The three checks made on one agent against the first one, in the
    order in which the constructor evaluates them; each check comes with
    its message and is [true] when it fails. *)
Definition agent_checks {World Loss} (agent0 agent : Agent World Loss)
    : list (bool * string) :=
  [ (negb (py_eqb (action_spec agent0) (action_spec agent)),
     "Inconsistent action specs.");
    (negb (time_step_spec_eqb (time_step_spec agent0) (time_step_spec agent)),
     "Inconsistent time step specs.");
    (negb (py_eqb (info_spec (policy agent0)) (info_spec (policy agent))),
     "Inconsistent info specs.") ].

(** All the checks of a construction in evaluation order: the agents after
    the first, one after the other, and then the length check. *)
Definition validation_checks {World Loss} (mixture_weights : list Q)
    (agent0 : Agent World Loss) (agents : list (Agent World Loss))
    : list (bool * string) :=
  (drop 1 agents ≫= agent_checks agent0) ++
  [ (negb (length mixture_weights =? length agents),
     "`mixture_weights` and `agents` must have equal length.") ].

(** The messages of the checks that fail, in evaluation order. *)
Definition failing_messages (checks : list (bool * string)) : list string :=
  snd <$> filter (λ c, c.1 = true) checks.

(** Two agents of the list disagree on the spec that [get] reads: the
    comparison [eqb], Python's [==] on that spec, fails on them. *)
Definition specs_differ {World Loss S} (eqb : S → S → bool)
    (get : Agent World Loss → S) (agents : list (Agent World Loss)) : Prop :=
  ∃ a b, a ∈ agents ∧ b ∈ agents ∧ eqb (get a) (get b) = false.


(** A name that [tf.Module] accepts: none, or an identifier; and the name
    the module then goes by. *)
Definition valid_module_name (name : option string) : bool :=
  match name with
  | None => true
  | Some name => valid_identifier name
  end.

Definition module_name (name : option string) : string :=
  default "static_mixture_agent" name.

(** *** The training step, as the specification describes it *)

Section TrainVocabulary.
Context {World Loss : Type}.
Variable flatten_multi_batched_nested_tensors :
  nest tensor → nest TensorSpec → result (nest tensor * list nat).
Variable batch_leaf : tensor → tensor.

(** The groups in the order in which the loop of [_train] looks them
    up: observations, actions, infos, rewards. *)
Definition Groups : Type :=
  list (nest tensor) * list (nest tensor) * nest tensor * list (nest tensor).

(** The routing of [_train]: everything it computes before its loop,
    which reads neither the world nor the sub-agents. *)
Definition route (self : StaticMixtureAgent World Loss)
    (experience : Trajectory) : result Groups :=
  ' (reward, _) <- flatten_multi_batched_nested_tensors
                     (reward experience) (ts_reward (_time_step_spec self));
  ' (action, _) <- flatten_multi_batched_nested_tensors
                     (action experience) (_action_spec self);
  ' (observation, _) <- flatten_multi_batched_nested_tensors
                     (observation experience)
                     (ts_observation (_time_step_spec self));
  ' (policy_choice, _) <- (
      agent_id <- getitem_key (policy_info experience) MIXTURE_AGENT_ID;
      flatten_multi_batched_nested_tensors
        agent_id (ts_reward (_time_step_spec self)));
  ' (original_infos, _) <- (
      subpolicy_info <- getitem_key (policy_info experience) SUBPOLICY_INFO;
      flatten_multi_batched_nested_tensors
        subpolicy_info (_original_info_spec self));
  infos <- _dynamic_partition_of_nested_tensors
             original_infos policy_choice (_num_agents self);
  rewards <- _dynamic_partition_of_nested_tensors
               reward policy_choice (_num_agents self);
  actions <- _dynamic_partition_of_nested_tensors
               action policy_choice (_num_agents self);
  observations <- _dynamic_partition_of_nested_tensors
                    observation policy_choice (_num_agents self);
  Ok (batch_nested_tensors batch_leaf <$> observations,
      batch_nested_tensors batch_leaf <$> actions,
      batch_nested_tensors batch_leaf (Node PyList infos),
      batch_nested_tensors batch_leaf <$> rewards).

(** The partitions behind a routing: the five parts of the batch are
    flattened, and the flattened infos, rewards, actions and observations
    are partitioned by the flattened mixture_agent_id. *)
Definition routed_groups (self : StaticMixtureAgent World Loss)
    (experience : Trajectory)
    (observations actions infos rewards : list (nest tensor)) : Prop :=
  ∃ flat_reward flat_action flat_observation policy_choice original_infos
    agent_id subpolicy_info d1 d2 d3 d4 d5,
    flatten_multi_batched_nested_tensors
      (reward experience) (ts_reward (_time_step_spec self))
      = Ok (flat_reward, d1) ∧
    flatten_multi_batched_nested_tensors
      (action experience) (_action_spec self) = Ok (flat_action, d2) ∧
    flatten_multi_batched_nested_tensors
      (observation experience) (ts_observation (_time_step_spec self))
      = Ok (flat_observation, d3) ∧
    getitem_key (policy_info experience) MIXTURE_AGENT_ID = Ok agent_id ∧
    flatten_multi_batched_nested_tensors
      agent_id (ts_reward (_time_step_spec self)) = Ok (policy_choice, d4) ∧
    getitem_key (policy_info experience) SUBPOLICY_INFO = Ok subpolicy_info ∧
    flatten_multi_batched_nested_tensors
      subpolicy_info (_original_info_spec self) = Ok (original_infos, d5) ∧
    _dynamic_partition_of_nested_tensors
      original_infos policy_choice (_num_agents self) = Ok infos ∧
    _dynamic_partition_of_nested_tensors
      flat_reward policy_choice (_num_agents self) = Ok rewards ∧
    _dynamic_partition_of_nested_tensors
      flat_action policy_choice (_num_agents self) = Ok actions ∧
    _dynamic_partition_of_nested_tensors
      flat_observation policy_choice (_num_agents self) = Ok observations.

(** A well-formed batch of [M] samples for the coordinator: its five
    parts flatten, the reward and the mixture_agent_id to single
    tensors, every flattened leaf has [M] rows, and the [M] labels name
    sub-agents. *)
Definition valid_batch (self : StaticMixtureAgent World Loss)
    (experience : Trajectory) (labels : list Z) (M : nat)
    (flat_reward : tensor)
    (flat_action flat_observation original_infos : nest tensor) : Prop :=
  ∃ agent_id subpolicy_info d1 d2 d3 d4 d5,
    flatten_multi_batched_nested_tensors
      (reward experience) (ts_reward (_time_step_spec self))
      = Ok (Leaf flat_reward, d1) ∧
    flatten_multi_batched_nested_tensors
      (action experience) (_action_spec self) = Ok (flat_action, d2) ∧
    flatten_multi_batched_nested_tensors
      (observation experience) (ts_observation (_time_step_spec self))
      = Ok (flat_observation, d3) ∧
    getitem_key (policy_info experience) MIXTURE_AGENT_ID = Ok agent_id ∧
    flatten_multi_batched_nested_tensors
      agent_id (ts_reward (_time_step_spec self))
      = Ok (Leaf (vector labels), d4) ∧
    getitem_key (policy_info experience) SUBPOLICY_INFO = Ok subpolicy_info ∧
    flatten_multi_batched_nested_tensors
      subpolicy_info (_original_info_spec self) = Ok (original_infos, d5) ∧
    num_rows flat_reward = Some M ∧
    row_aligned M flat_action ∧
    row_aligned M flat_observation ∧
    row_aligned M original_infos ∧
    length labels = M ∧
    labels_in_range (_num_agents self) labels.

(** The transition record of group [k] of such a batch. *)
Definition routed_experience (labels : list Z) (flat_reward : tensor)
    (flat_action flat_observation original_infos : nest tensor) (k : nat)
    : Trajectory :=
  let reward_k := batch_leaf (Rows (rows_labelled k labels (rows_of flat_reward))) in
  single_step
    (batch_nested_tensors batch_leaf (group_of labels k flat_observation))
    (batch_nested_tensors batch_leaf (group_of labels k flat_action))
    (batch_nested_tensors batch_leaf (group_of labels k original_infos))
    (Leaf reward_k) (Leaf (zeros_like reward_k)).


(** The transition record the loop builds for sub-agent [k]. *)
Definition planned_experience (groups : Groups) (k : nat) : result Trajectory :=
  let '(observations, actions, infos, rewards) := groups in
  observation_k <- getitem observations k;
  action_k <- getitem actions k;
  policy_info_k <- getitem_index infos k;
  reward_k <- getitem rewards k;
  discount_k <- tf_zeros_like reward_k;
  Ok (single_step observation_k action_k policy_info_k reward_k discount_k).

(** The losses a list of invocations returned. *)
Definition returned_losses (calls : list (Call Loss)) : list Loss :=
  omap (λ c, match call_result c with
             | Ok loss_info => Some (loss loss_info)
             | Raise _ => None
             end) calls.

(** [calls_from agents world calls world']: starting in [world], the
    invocations [calls] happened one after the other, each the [train] of
    the sub-agent it names, and left the world as [world']. *)
Inductive calls_from (agents : list (Agent World Loss))
    : World → list (Call Loss) → World → Prop :=
  | calls_from_nil world : calls_from agents world [] world
  | calls_from_cons world c agent world1 calls world' :
      agents !! call_agent c = Some agent →
      train agent (call_experience c) world = (call_result c, world1) →
      calls_from agents world1 calls world' →
      calls_from agents world (c :: calls) world'.

(** Which sub-agent was invoked with which transition record. *)
Definition invocations (calls : list (Call Loss)) : list (nat * Trajectory) :=
  (λ c, (call_agent c, call_experience c)) <$> calls.
End TrainVocabulary.

(** ** A concrete setting *)

(** Modelled from the spec: [nest_utils.flatten_multi_batched_nested_tensors]
    is not among the sources.  Spec 4.3 step 1: it flattens the outer two
    batch dimensions of every leaf into one, using the structural spec of
    the field, and keeps the tree shape; a structure that does not match
    its spec, or a leaf without two outer dimensions, is a malformed batch
    and fails.  The second component is the pair of batch dimensions of the
    first leaf. *)
Definition inner_rows (t : tensor) : result (list tensor) :=
  match t with
  | Scalar _ => Raise InvalidArgumentError
  | Rows rs => Ok rs
  end.

Definition merge_outer_dims (t : tensor) : result tensor :=
  outer <- inner_rows t;
  inner <- mapR inner_rows outer;
  Ok (Rows (mjoin inner)).

Definition outer_dims (t : tensor) : list nat :=
  match t with
  | Rows (Rows rs :: outer) => [S (length outer); length rs]
  | Rows outer => [length outer]
  | Scalar _ => []
  end.

Definition flatten_outer_two (tensors : nest tensor) (specs : nest TensorSpec)
    : result (nest tensor * list nat) :=
  if negb (nest_eqb (shape tensors) (shape specs))
  then Raise (ValueError "The two structures don't have the same nested structure.")
  else
    flat <- mapR merge_outer_dims (flatten tensors);
    packed <- pack_sequence_as tensors flat;
    Ok (packed, from_option outer_dims [] (head (flatten tensors))).

(** Re-batching one leaf: its rows become the one entry of a new leading
    dimension. *)
Definition add_batch_dim (t : tensor) : tensor := Rows [t].

Definition scalar_spec (dtype : string) : nest TensorSpec :=
  Leaf {| spec_shape := []; spec_dtype := dtype |}.

Definition bandit_time_step_spec : TimeStepSpec :=
  {| ts_step_type := scalar_spec "int32";
     ts_reward := scalar_spec "float32";
     ts_discount := scalar_spec "float32";
     ts_observation := Leaf {| spec_shape := [2]; spec_dtype := "float32" |} |}.

(** The number of samples in a re-batched scalar reward. *)
Definition sample_count (x : nest tensor) : Z :=
  match x with
  | Leaf (Rows [Rows rs]) => Z.of_nat (length rs)
  | _ => 0
  end.

(** A sub-agent for the examples: the world counts the training steps made
    so far, and the loss is a base value plus the number of samples
    received.  Its policy emits the info described by [info]. *)
Definition counting_agent (info : nest TensorSpec) (base : Z) : Agent nat Z :=
  {| time_step_spec := bandit_time_step_spec;
     action_spec := scalar_spec "int32";
     policy := {| info_spec := info |};
     collect_policy := {| info_spec := info |};
     train := λ experience steps,
       (Ok {| loss := (base + sample_count (reward experience))%Z; extra := tt |},
        S steps) |}.

(** A batch with outer dimensions [1, 4]: four transitions, a two-feature
    observation, a scalar action, a scalar reward and a one-number policy
    info, recorded under the given mixture_agent_id. *)
Definition batch_of (rows : list Z → tensor) (values : list (list Z)) : tensor :=
  Rows [Rows (rows <$> values)].

Definition example_experience (agent_ids : list Z) (subpolicy_info : nest tensor)
    : Trajectory :=
  {| observation :=
       Leaf (batch_of vector [[10; 11]; [20; 21]; [30; 31]; [40; 41]]%Z);
     action := Leaf (Rows [vector [0; 1; 1; 0]%Z]);
     policy_info :=
       Node (PyDict [MIXTURE_AGENT_ID; SUBPOLICY_INFO])
            [Leaf (Rows [vector agent_ids]); subpolicy_info];
     reward := Leaf (Rows [vector [5; 6; 7; 8]%Z]);
     discount := Leaf (Rows [vector [1; 1; 1; 1]%Z]) |}.

(** The info of a policy that reports one number per sample, and the info
    of a policy that reports nothing. *)
Definition one_number_info : nest TensorSpec :=
  Node (PyNamedTuple ["predicted_rewards_mean"]) [scalar_spec "float32"].
Definition one_number_values : nest tensor :=
  Node (PyNamedTuple ["predicted_rewards_mean"])
       [Leaf (Rows [vector [1; 2; 3; 4]%Z])].
Definition no_info : nest TensorSpec := Node PyTuple [].
Definition no_info_values : nest tensor := Node PyTuple [].

(** A structure with two leaves of four rows each, and labels for its
    rows. *)
Definition example_nested : nest tensor :=
  Node PyTuple
    [ Leaf (vector [10; 11; 12; 13]%Z);
      Node (PyDict ["context"])
           [Leaf (Rows [vector [1; 2]; vector [3; 4]; vector [5; 6]; vector [7; 8]]%Z)] ].
Definition example_labels : list Z := [0; 1; 0; 1]%Z.

(** An agent like [counting_agent one_number_info], but with another
    action spec. *)
Definition odd_agent : Agent nat Z :=
  {| time_step_spec := bandit_time_step_spec;
     action_spec := scalar_spec "int64";
     policy := {| info_spec := one_number_info |};
     collect_policy := {| info_spec := one_number_info |};
     train := λ experience steps, (Raise TypeError, steps) |}.

(** Two and three sub-agents whose policies report one number, the same
    whose policies report nothing, and unit weights. *)
Definition two_agents : list (Agent nat Z) :=
  [counting_agent one_number_info 100; counting_agent one_number_info 200].
Definition three_agents : list (Agent nat Z) :=
  [counting_agent one_number_info 100; counting_agent one_number_info 200;
   counting_agent one_number_info 300].
Definition two_silent_agents : list (Agent nat Z) :=
  [counting_agent no_info 100; counting_agent no_info 200].
Definition three_silent_agents : list (Agent nat Z) :=
  [counting_agent no_info 100; counting_agent no_info 200;
   counting_agent no_info 300].
Definition unit_weights (n : nat) : list Q := replicate n 1%Q.

(** An agent with the specs of [counting_agent one_number_info] whose
    training step raises, after counting itself. *)
Definition broken_agent : Agent nat Z :=
  {| time_step_spec := bandit_time_step_spec;
     action_spec := scalar_spec "int32";
     policy := {| info_spec := one_number_info |};
     collect_policy := {| info_spec := one_number_info |};
     train := λ experience steps,
       (Raise (ValueError "loss is not finite"), S steps) |}.

(** The coordinator that the constructor builds over [agents], of which
    [first] is the first, with unit weights and no name given. *)
Definition coordinator_over (first : Agent nat Z) (agents : list (Agent nat Z))
    : StaticMixtureAgent nat Z :=
  let mixture := {| mp_mixture_weights := unit_weights (length agents);
                    mp_policies := collect_policy <$> agents |} in
  {| _name := "static_mixture_agent";
     _original_info_spec := info_spec (policy first);
     _agents := agents;
     _num_agents := length agents;
     _mixture_weights := unit_weights (length agents);
     _time_step_spec := time_step_spec first;
     _action_spec := action_spec first;
     _policy := mixture;
     _collect_policy := mixture;
     _train_sequence_length := None |}.

Definition two_agent_coordinator : StaticMixtureAgent nat Z :=
  coordinator_over (counting_agent one_number_info 100) two_agents.
Definition two_silent_agent_coordinator : StaticMixtureAgent nat Z :=
  coordinator_over (counting_agent no_info 100) two_silent_agents.
Definition breaking_agents : list (Agent nat Z) :=
  [counting_agent one_number_info 100; broken_agent;
   counting_agent one_number_info 300].
Definition breaking_coordinator : StaticMixtureAgent nat Z :=
  coordinator_over (counting_agent one_number_info 100) breaking_agents.

(** The flattened parts of [example_experience]. *)
Definition example_flat_reward : tensor := vector [5; 6; 7; 8]%Z.
Definition example_flat_action : nest tensor := Leaf (vector [0; 1; 1; 0]%Z).
Definition example_flat_observation : nest tensor :=
  Leaf (Rows [vector [10; 11]; vector [20; 21]; vector [30; 31]; vector [40; 41]]%Z).
Definition example_flat_infos : nest tensor :=
  Node (PyNamedTuple ["predicted_rewards_mean"]) [Leaf (vector [1; 2; 3; 4]%Z)].

(** A batch whose policy info lacks the mixture_agent_id. *)
Definition experience_without_agent_id : Trajectory :=
  {| observation := observation (example_experience [] one_number_values);
     action := action (example_experience [] one_number_values);
     policy_info := Node (PyDict [SUBPOLICY_INFO]) [one_number_values];
     reward := reward (example_experience [] one_number_values);
     discount := discount (example_experience [] one_number_values) |}.

(** [StaticMixtureAgent._train] over the concrete helpers, with integer
    losses. *)
Definition example_train := @_train nat Z Z.add 0%Z flatten_outer_two add_batch_dim.

(** * Properties *)

(** ** Structural equality *)

Lemma nest_eqb_eq {A} `{EqDecision A} (x y : nest A) :
  nest_eqb x y = true ↔ x = y.
Proof.
  revert y. induction x as [a|c kids IH] using nest_ind'; intros [b|c' kids']; simpl;
    try (split; [discriminate|congruence]).
  - rewrite bool_decide_eq_true. split; congruence.
  - rewrite andb_true_iff, bool_decide_eq_true.
    assert ((fix go (l l' : list (nest A)) : bool :=
               match l, l' with
               | [], [] => true
               | k :: l0, k' :: l0' => nest_eqb k k' && go l0 l0'
               | _, _ => false
               end) kids kids' = true ↔ kids = kids') as ->.
    { revert kids'. induction IH as [|k l0 Hk _ IHl]; intros [|k' l0'];
        try (split; [discriminate|congruence]); [done|].
      rewrite andb_true_iff, Hk, IHl. split; [intros [-> ->]; done|].
      intros [= -> ->]; done. }
    split; [intros [-> ->]; done|intros [= -> ->]; done].
Qed.

(** ** Rows by label *)

Lemma rows_labelled_sublist {A} k labels (rows : list A) :
  rows_labelled k labels rows `sublist_of` rows.
Proof.
  revert rows. induction labels as [|l labels IH]; intros [|r rows]; simpl;
    try apply sublist_nil_l.
  case_decide; [apply sublist_skip|apply sublist_cons]; apply IH.
Qed.

Lemma rows_labelled_fmap {A B} (f : A → B) k labels (rows : list A) :
  rows_labelled k labels (f <$> rows) = f <$> rows_labelled k labels rows.
Proof.
  revert rows. induction labels as [|l labels IH]; intros [|r rows]; simpl; try done.
  case_decide; simpl; by rewrite IH.
Qed.

Lemma rows_labelled_Forall2 {A B} (R : A → B → Prop) k labels xs ys :
  Forall2 R xs ys →
  Forall2 R (rows_labelled k labels xs) (rows_labelled k labels ys).
Proof.
  intros H. revert labels. induction H as [|x y xs ys Hxy _ IH]; intros [|l labels];
    simpl; try constructor.
  case_decide; [constructor|]; auto.
Qed.

Lemma rows_labelled_elem_of_seq k labels s i :
  i ∈ rows_labelled k labels (seq s (length labels)) ↔
  s ≤ i ∧ labels !! (i - s) = Some (Z.of_nat k).
Proof.
  revert s. induction labels as [|l labels IH]; intros s; simpl.
  - rewrite elem_of_nil. split; [done|]. intros [_ Hi].
    by rewrite lookup_nil in Hi.
  - case_decide as Hl.
    + rewrite elem_of_cons, IH. split.
      * intros [->|[Hs Hi]].
        -- rewrite Nat.sub_diag. simpl. split; [lia|congruence].
        -- split; [lia|]. by replace (i - s) with (S (i - S s)) by lia.
      * intros [Hs Hi]. destruct (decide (i = s)) as [|Hne]; [by left|right].
        split; [lia|]. by replace (i - s) with (S (i - S s)) in Hi by lia.
    + rewrite IH. split.
      * intros [Hs Hi]. split; [lia|]. by replace (i - s) with (S (i - S s)) by lia.
      * intros [Hs Hi]. destruct (decide (i = s)) as [->|Hne].
        { rewrite Nat.sub_diag in Hi. simpl in Hi. congruence. }
        split; [lia|]. by replace (i - s) with (S (i - S s)) in Hi by lia.
Qed.

Lemma elem_of_group_indices labels k i :
  i ∈ group_indices labels k ↔ labels !! i = Some (Z.of_nat k).
Proof.
  unfold group_indices. rewrite rows_labelled_elem_of_seq, Nat.sub_0_r.
  split; [tauto|]. split; [lia|done].
Qed.

Lemma group_indices_sublist labels k :
  group_indices labels k `sublist_of` seq 0 (length labels).
Proof. apply rows_labelled_sublist. Qed.

(** The rows of group [k] are the rows at the positions [group_indices]. *)
Lemma rows_labelled_at_indices {A} k labels (rows : list A) :
  length labels = length rows →
  Forall2 (λ i r, rows !! i = Some r)
          (group_indices labels k) (rows_labelled k labels rows).
Proof.
  intros Hlen. unfold group_indices. apply rows_labelled_Forall2.
  rewrite Hlen. apply Forall2_lookup. intros i.
  destruct (decide (i < length rows)) as [Hi|Hi].
  - rewrite lookup_seq_lt by done. simpl.
    destruct (lookup_lt_is_Some_2 rows i Hi) as [r Hr]. rewrite Hr.
    by constructor.
  - rewrite lookup_seq_ge, (lookup_ge_None_2 rows) by lia. constructor.
Qed.

Lemma mjoin_move_front {A} (g : nat → list A) (d : A) (l : nat) (ks : list nat) :
  NoDup ks → l ∈ ks →
  mjoin ((λ k, if decide (l = k) then d :: g k else g k) <$> ks)
    ≡ₚ d :: mjoin (g <$> ks).
Proof.
  induction ks as [|k ks IH]; intros Hnd Hl; [by apply elem_of_nil in Hl|].
  apply NoDup_cons in Hnd as [Hk Hnd]. csimpl. case_decide as Hlk.
  - subst k. csimpl.
    assert (((λ k, if decide (l = k) then d :: g k else g k) <$> ks) = g <$> ks)
      as ->; [|done].
    apply list_fmap_ext. intros i k Hik. case_decide; [|done]. subst k.
    apply list_elem_of_lookup_2 in Hik. done.
  - apply elem_of_cons in Hl as [?|Hl]; [done|].
    rewrite IH by done. by rewrite Permutation_middle.
Qed.

(** Regrouping neither drops nor duplicates a row. *)
Lemma rows_labelled_Permutation {A} n labels (rows : list A) :
  labels_in_range n labels → length labels = length rows →
  mjoin ((λ k, rows_labelled k labels rows) <$> seq 0 n) ≡ₚ rows.
Proof.
  intros Hrange. revert rows.
  induction Hrange as [|l labels Hl _ IH]; intros [|r rows] Hlen; simplify_eq/=.
  - induction (seq 0 n) as [|k ks IHk]; simpl; [done|]. by rewrite IHk.
  - transitivity (r :: mjoin ((λ k, rows_labelled k labels rows) <$> seq 0 n));
      [|by rewrite IH].
    rewrite <-(mjoin_move_front (λ k, rows_labelled k labels rows) r (Z.to_nat l)).
    + assert (∀ f g : nat → list A, (∀ k, f k = g k) →
              mjoin (f <$> seq 0 n) = mjoin (g <$> seq 0 n)) as Hext.
      { intros f g Hfg. f_equal. apply list_fmap_ext. auto. }
      rewrite (Hext _ (λ k, if decide (Z.to_nat l = k)
                            then r :: rows_labelled k labels rows
                            else rows_labelled k labels rows)); [done|].
      intros k. repeat case_decide; try done; lia.
    + apply NoDup_seq.
    + apply elem_of_seq. lia.
Qed.

Lemma length_mjoin_sum {A} (ls : list (list A)) :
  length (mjoin ls) = sum_list (length <$> ls).
Proof. induction ls as [|l ls IH]; simpl; [done|]. by rewrite length_app, IH. Qed.

Lemma rows_labelled_sum_length {A} n labels (rows : list A) :
  labels_in_range n labels → length labels = length rows →
  sum_list ((λ k, length (rows_labelled k labels rows)) <$> seq 0 n) = length rows.
Proof.
  intros Hrange Hlen.
  rewrite <-(Permutation_length (rows_labelled_Permutation n labels rows Hrange Hlen)).
  by rewrite length_mjoin_sum, <-list_fmap_compose.
Qed.

(** ** [tf.dynamic_partition] on a vector of labels *)

Lemma scatter_vector n labels rows outputs :
  labels_in_range n labels → length labels = length rows →
  scatter n (vector labels) (Rows rows) outputs =
    Ok (imap (λ k out, out ++ rows_labelled k labels rows) outputs).
Proof.
  unfold vector. simpl. intros Hrange. revert rows outputs.
  induction Hrange as [|l labels Hl _ IH]; intros [|r rows] outputs Hlen;
    simplify_eq/=.
  - f_equal. apply list_eq. intros i. rewrite list_lookup_imap.
    destruct (outputs !! i); simpl; [|done]. by rewrite app_nil_r.
  - rewrite decide_True by done. simpl. rewrite IH by done. f_equal.
    apply list_eq. intros i. rewrite !list_lookup_imap.
    destruct (decide (Z.to_nat l = i)) as [<-|Hne].
    + rewrite list_lookup_alter_eq. destruct (outputs !! _); simpl; [|done].
      rewrite decide_True by lia. by rewrite <-app_assoc.
    + rewrite list_lookup_alter_ne by done. destruct (outputs !! i); simpl; [|done].
      rewrite decide_False by lia. done.
Qed.

Lemma scatter_length n partitions data outputs outputs' :
  scatter n partitions data outputs = Ok outputs' →
  length outputs' = length outputs.
Proof.
  revert data outputs outputs'.
  induction partitions as [l|ps IH] using tensor_ind'; intros data outputs outputs'; simpl.
  - case_decide; [|done]. intros [= <-]. by rewrite length_alter.
  - destruct data as [|ds]; [done|]. revert ds outputs.
    induction IH as [|p ps Hp _ IHps]; intros [|d ds] outputs; try done.
    + by intros [= ->].
    + destruct (scatter n p d outputs) as [o|] eqn:E; simpl; [|done].
      intros Hgo. apply IHps in Hgo. apply Hp in E. congruence.
Qed.

Lemma dynamic_partition_vector n labels rows :
  n ≠ 0 → labels_in_range n labels → length labels = length rows →
  dynamic_partition (Rows rows) (Leaf (vector labels)) n =
    Ok ((λ k, Rows (rows_labelled k labels rows)) <$> seq 0 n).
Proof.
  intros Hn Hrange Hlen. unfold dynamic_partition.
  rewrite decide_False by done. cbn [convert_to_tensor bindR].
  rewrite scatter_vector by done. cbn [bindR]. f_equal.
  apply list_eq. intros i.
  rewrite !list_lookup_fmap, list_lookup_imap.
  destruct (decide (i < n)) as [Hi|Hi].
  - rewrite lookup_replicate_2, lookup_seq_lt by done. done.
  - rewrite (proj1 (lookup_replicate_None n [] i)), lookup_seq_ge by lia. done.
Qed.

(** Whatever its arguments, a successful [tf.dynamic_partition] returns
    [num_partitions] tensors. *)
Lemma dynamic_partition_length data partitions n outs :
  dynamic_partition data partitions n = Ok outs → length outs = n.
Proof.
  unfold dynamic_partition. case_decide; [done|].
  destruct (convert_to_tensor partitions) as [p|]; simpl; [|done].
  destruct (scatter n p data _) as [o|] eqn:E; simpl; [|done].
  intros [= <-]. apply scatter_length in E.
  by rewrite length_fmap, E, length_replicate.
Qed.

(** ** List comprehensions and the transpose *)

Lemma mapR_Ok_fmap {A B} (f : A → result B) (g : A → B) l :
  Forall (λ x, f x = Ok (g x)) l → mapR f l = Ok (g <$> l).
Proof. induction 1 as [|x l Hx _ IH]; simpl; [done|]. by rewrite Hx, IH. Qed.

Lemma mapR_fmap {A B C} (f : B → result C) (h : A → B) l :
  mapR f (h <$> l) = mapR (λ x, f (h x)) l.
Proof. induction l as [|x l IH]; csimpl; [done|]. by rewrite IH. Qed.

Lemma mapR_Ok_Forall2 {A B} (f : A → result B) l ys :
  mapR f l = Ok ys ↔ Forall2 (λ x y, f x = Ok y) l ys.
Proof.
  revert ys. induction l as [|x l IH]; intros ys; simpl.
  - split; [intros ?; simplify_eq; constructor|by inversion 1].
  - destruct (f x) as [y|e] eqn:Hx; simpl.
    + destruct (mapR f l) as [ys'|e] eqn:Hl; simpl.
      * split.
        -- intros [= <-]. constructor; [done|]. by apply IH.
        -- inversion 1 as [|? y' ? ys'' Hy Hys]; simplify_eq.
           apply IH in Hys. congruence.
      * split; [done|]. inversion 1 as [|? y' ? ys'' Hy Hys]; simplify_eq.
        apply IH in Hys. done.
    + split; [done|]. inversion 1; congruence.
Qed.

Lemma zip_star_nonempty {A} (l : list A) (ls : list (list A)) :
  ls ≠ [] → zip_star (l :: ls) = zip_with cons l (zip_star ls).
Proof. by destruct ls. Qed.

(** The transpose of a table given by rows is the table given by columns. *)
Lemma zip_star_tabulate {A T} (h : T → nat → A) (ts : list T) (ks : list nat) :
  ts ≠ [] →
  zip_star ((λ t, h t <$> ks) <$> ts) = (λ k, (λ t, h t k) <$> ts) <$> ks.
Proof.
  induction ts as [|t ts IH]; [done|]. intros _.
  destruct ts as [|t' ts].
  - simpl. rewrite <-list_fmap_compose. done.
  - rewrite fmap_cons, zip_star_nonempty by done.
    rewrite IH by done. rewrite zip_with_fmap_l, zip_with_fmap_r, zip_with_diag.
    done.
Qed.

Lemma zip_star_length {A} (ls : list (list A)) n :
  ls ≠ [] → Forall (λ l, length l = n) ls → length (zip_star ls) = n.
Proof.
  induction ls as [|l ls IH]; [done|]. intros _ Hall.
  apply Forall_cons in Hall as [Hl Hall]. destruct ls as [|l' ls].
  - simpl. by rewrite length_fmap.
  - rewrite zip_star_nonempty by done. rewrite length_zip_with, IH by done. lia.
Qed.

Lemma zip_star_Forall_length {A} (ls : list (list A)) :
  Forall (λ col, length col = length ls) (zip_star ls).
Proof.
  induction ls as [|l ls IH]; [constructor|]. destruct ls as [|l' ls].
  - simpl. apply Forall_fmap, Forall_true. done.
  - rewrite zip_star_nonempty by done. revert IH.
    generalize (zip_star (l' :: ls)). intros cols. revert l.
    induction cols as [|c cols IHc]; intros [|x l] Hall; simpl; try constructor.
    + apply Forall_cons in Hall as [Hc _]. simpl. by rewrite Hc.
    + apply Forall_cons in Hall as [_ Hall]. by apply IHc.
Qed.

(** ** Packing *)

Lemma pack_from_flatten {A B} (x : nest A) (bs rest : list B) :
  length bs = length (flatten x) →
  ∃ y, pack_from x (bs ++ rest) = Some (y, rest) ∧ shape y = shape x ∧ flatten y = bs.
Proof.
  revert bs rest. induction x as [a|c kids IH] using nest_ind'; intros bs rest Hlen.
  - destruct bs as [|b [|??]]; simplify_eq/=. by exists (Leaf b).
  - simpl in Hlen.
    assert (∃ ys, (fix go (kids : list (nest A)) (flat : list B)
                     : option (list (nest B) * list B) :=
                     match kids with
                     | [] => Some ([], flat)
                     | k :: kids0 =>
                         '(k', rest) ← pack_from k flat;
                         '(kids', rest') ← go kids0 rest;
                         Some (k' :: kids', rest')
                     end) kids (bs ++ rest) = Some (ys, rest) ∧
                 shape <$> ys = shape <$> kids ∧ mjoin (flatten <$> ys) = bs)
      as (ys & Hgo & Hshape & Hflat).
    { clear c. revert bs Hlen. induction IH as [|k kids Hk _ IHkids]; intros bs Hlen.
      - destruct bs; simplify_eq/=. by exists [].
      - csimpl in Hlen. rewrite length_app in Hlen.
        rewrite <-(take_drop (length (flatten k)) bs), <-app_assoc.
        destruct (Hk (take (length (flatten k)) bs) (drop (length (flatten k)) bs ++ rest))
          as (y & Hy & Hy1 & Hy2); [rewrite length_take; lia|].
        destruct (IHkids (drop (length (flatten k)) bs))
          as (ys & Hys & Hys1 & Hys2); [rewrite length_drop; lia|].
        exists (y :: ys). rewrite Hy. csimpl. rewrite Hys. csimpl.
        by rewrite Hy1, Hys1, Hy2, Hys2. }
    exists (Node c ys). simpl. rewrite Hgo. simpl. split; [done|].
    split; [|done]. unfold shape in *. simpl. f_equal. done.
Qed.

Lemma pack_sequence_as_flat {A B} (x : nest A) (bs : list B) :
  length bs = length (flatten x) →
  ∃ y, pack_sequence_as x bs = Ok y ∧ shape y = shape x ∧ flatten y = bs.
Proof.
  intros Hlen. unfold pack_sequence_as. rewrite decide_True by done.
  destruct (pack_from_flatten x bs [] Hlen) as (y & Hy & ? & ?).
  rewrite app_nil_r in Hy. rewrite Hy. by exists y.
Qed.

Lemma flatten_map_structure {A B} (f : A → B) (x : nest A) :
  flatten (map_structure f x) = f <$> flatten x.
Proof.
  induction x as [a|c kids IH] using nest_ind'; simpl; [done|].
  induction IH as [|k kids Hk _ IHkids]; csimpl; [done|].
  by rewrite fmap_app, Hk, IHkids.
Qed.

Lemma shape_map_structure {A B} (f : A → B) (x : nest A) :
  shape (map_structure f x) = shape x.
Proof.
  unfold shape. induction x as [a|c kids IH] using nest_ind'; simpl; [done|].
  f_equal. induction IH as [|k kids Hk _ IHkids]; csimpl; [done|].
  by rewrite Hk, IHkids.
Qed.

(** A structure is determined by its shape and its leaves. *)
Lemma shape_flatten_inj {A} (x y : nest A) :
  shape x = shape y → flatten x = flatten y → x = y.
Proof.
  revert y. induction x as [a|c kids IH] using nest_ind'; intros [b|c' kids'];
    unfold shape; simpl; try done.
  - by intros _ [= ->].
  - intros [= -> Hshape] Hflat. f_equal. revert kids' Hshape Hflat.
    induction IH as [|k kids Hk _ IHkids]; intros [|k' kids'] Hshape Hflat;
      simplify_eq/=; [done|].
    assert (length (flatten k) = length (flatten k')) as Hlen.
    { rewrite <-(length_fmap (λ _, tt) (flatten k)), <-(length_fmap (λ _, tt) (flatten k')).
      rewrite <-!flatten_map_structure. congruence. }
    apply app_inj_1 in Hflat as [Hf1 Hf2]; [|done].
    f_equal; [by apply Hk|by apply IHkids].
Qed.

Lemma pack_sequence_as_fmap {A B} (f : A → B) (x : nest A) :
  pack_sequence_as x (f <$> flatten x) = Ok (map_structure f x).
Proof.
  destruct (pack_sequence_as_flat x (f <$> flatten x)) as (y & -> & Hs & Hf);
    [by rewrite length_fmap|].
  f_equal. apply shape_flatten_inj.
  - by rewrite shape_map_structure.
  - by rewrite flatten_map_structure.
Qed.

(** ** The nested partition *)

Lemma pack_sequence_as_Ok {A B} (x : nest A) (bs : list B) y :
  pack_sequence_as x bs = Ok y → shape y = shape x ∧ flatten y = bs.
Proof.
  intros Hy. unfold pack_sequence_as in Hy. case_decide as Hlen; [|done].
  destruct (pack_sequence_as_flat x bs) as (y' & Hy' & ? & ?); [done|].
  unfold pack_sequence_as in Hy'. rewrite decide_True in Hy' by done.
  destruct (pack_from x bs) as [[p r]|]; by simplify_eq.
Qed.

(** Every group the partition returns has the tree shape of its input. *)
Lemma partition_preserves_shape nested partitions n groups :
  _dynamic_partition_of_nested_tensors nested partitions n = Ok groups →
  Forall (λ g, shape g = shape nested) groups.
Proof.
  unfold _dynamic_partition_of_nested_tensors.
  destruct (mapR _ (flatten nested)) as [flat|]; simpl; [|done].
  intros Hpack%mapR_Ok_Forall2. induction Hpack as [|i g ?? Hg _ IH]; constructor; [|done].
  by apply pack_sequence_as_Ok in Hg as [? _].
Qed.

(** A structure with at least one leaf is split into [num_partitions]
    groups. *)
Lemma partition_group_count nested partitions n groups :
  flatten nested ≠ [] →
  _dynamic_partition_of_nested_tensors nested partitions n = Ok groups →
  length groups = n.
Proof.
  intros Hleaf. unfold _dynamic_partition_of_nested_tensors.
  destruct (mapR _ (flatten nested)) as [flat|] eqn:Hflat; simpl; [|done].
  intros Hpack%mapR_Ok_Forall2. apply Forall2_length in Hpack as <-.
  apply mapR_Ok_Forall2 in Hflat. apply zip_star_length.
  - intros ->. apply Forall2_length in Hflat. by destruct (flatten nested).
  - clear Hleaf. induction Hflat as [|t outs ?? Ht _ IH]; [constructor|].
    constructor; [|done]. by apply dynamic_partition_length in Ht.
Qed.

(** A structure without any leaf is split into no group at all, whatever
    [num_partitions] is. *)
Lemma partition_leafless nested partitions n :
  flatten nested = [] →
  _dynamic_partition_of_nested_tensors nested partitions n = Ok [].
Proof. intros Hleaf. unfold _dynamic_partition_of_nested_tensors. by rewrite Hleaf. Qed.

(** On a row-aligned structure with at least one leaf and labels in range,
    the partition returns the groups [0 .. num_partitions - 1] in this
    order. *)
Lemma partition_row_aligned nested labels n m :
  n ≠ 0 → flatten nested ≠ [] →
  row_aligned m nested → length labels = m → labels_in_range n labels →
  _dynamic_partition_of_nested_tensors nested (Leaf (vector labels)) n =
    Ok ((λ k, group_of labels k nested) <$> seq 0 n).
Proof.
  intros Hn Hleaf Halign Hlen Hrange. unfold _dynamic_partition_of_nested_tensors.
  rewrite (mapR_Ok_fmap _
    (λ t, (λ k, Rows (rows_labelled k labels (rows_of t))) <$> seq 0 n)).
  - cbn [bindR].
    rewrite (zip_star_tabulate (λ t k, Rows (rows_labelled k labels (rows_of t))))
      by done.
    rewrite mapR_fmap, (mapR_Ok_fmap _ (λ k, group_of labels k nested)); [done|].
    apply Forall_true. intros k. simpl.
    apply (pack_sequence_as_fmap
             (λ t, Rows (rows_labelled k labels (rows_of t))) nested).
  - eapply Forall_impl; [apply Halign|]. intros [v|rows]; simpl; [done|].
    intros [= Hm]. apply dynamic_partition_vector; [done..|lia].
Qed.

Lemma leaf_rows_group_of labels k nested j rows :
  flatten nested !! j = Some (Rows rows) →
  leaf_rows (group_of labels k nested) j = rows_labelled k labels rows.
Proof.
  intros Hj. unfold leaf_rows, group_of.
  by rewrite flatten_map_structure, list_lookup_fmap, Hj.
Qed.

Lemma group_of_row_aligned labels k nested :
  row_aligned (length labels) nested →
  row_aligned (length (group_indices labels k)) (group_of labels k nested).
Proof.
  unfold row_aligned, group_of. rewrite flatten_map_structure.
  intros Halign. apply Forall_fmap. eapply Forall_impl; [apply Halign|].
  intros [v|rows]; simpl; [done|]. intros [= Hm]. f_equal. symmetry.
  eapply Forall2_length, rows_labelled_at_indices. done.
Qed.

(** C2.  On a structure of row-aligned leaves with [M] rows, labels of
    length [M] in [0, N) and [N >= 1], the nested partition succeeds and is
    a length-preserving bijection on rows.  For every leaf of the input:
    there are [N] groups; group [k] holds exactly the rows at the positions
    [group_indices labels k], in this order; and the groups' row counts sum
    to [M].  The positions themselves depend on the labels only: row [i]
    is in group [k] exactly when its label is [k], so it is in exactly one
    group, and each group lists its positions in ascending order without
    repetition (a sublist of [0 .. M-1]). *)
Theorem partition_is_bijection_on_rows (nested : nest tensor)
    (labels : list Z) (N M : nat) :
  0 < N → row_aligned M nested → length labels = M → labels_in_range N labels →
  ∃ groups,
    _dynamic_partition_of_nested_tensors nested (Leaf (vector labels)) N = Ok groups ∧
    (∀ j rows, flatten nested !! j = Some (Rows rows) →
       length groups = N ∧
       (∀ k, k < N → ∃ g,
          groups !! k = Some g ∧
          Forall2 (λ i r, rows !! i = Some r)
                  (group_indices labels k) (leaf_rows g j)) ∧
       sum_list ((λ g, length (leaf_rows g j)) <$> groups) = M) ∧
    (∀ i k, i ∈ group_indices labels k ↔ labels !! i = Some (Z.of_nat k)) ∧
    (∀ i, i < M → ∃ k, k < N ∧ ∀ k', i ∈ group_indices labels k' ↔ k' = k) ∧
    (∀ k, group_indices labels k `sublist_of` seq 0 M).
Proof.
  intros HN Halign Hlen Hrange.
  destruct (decide (flatten nested = [])) as [Hleaf|Hleaf].
  - exists []. split; [by apply partition_leafless|]. split.
    { intros j rows Hj. by rewrite Hleaf in Hj. }
    split; [intros i k; apply elem_of_group_indices|]. split.
    + intros i Hi. rewrite <-Hlen in Hi.
      destruct (lookup_lt_is_Some_2 labels i Hi) as [l Hl].
      pose proof (proj1 (Forall_lookup _ _) Hrange i l Hl) as Hl'. simpl in Hl'.
      exists (Z.to_nat l). split; [lia|]. intros k'.
      rewrite elem_of_group_indices, Hl. split; [intros [= ->]; lia|].
      intros ->. f_equal. lia.
    + intros k. rewrite <-Hlen. apply group_indices_sublist.
  - exists ((λ k, group_of labels k nested) <$> seq 0 N).
    split; [apply (partition_row_aligned nested labels N M); (done || lia)|].
    split; [|split; [intros i k; apply elem_of_group_indices|split]].
    + intros j rows Hj.
      assert (length labels = length rows) as Hrows.
      { pose proof (proj1 (Forall_lookup _ _) Halign j _ Hj) as Hm.
        simpl in Hm. congruence. }
      split; [by rewrite length_fmap, length_seq|]. split.
      * intros k Hk. exists (group_of labels k nested). split.
        { by rewrite list_lookup_fmap, lookup_seq_lt. }
        rewrite (leaf_rows_group_of _ _ _ _ rows) by done.
        by apply rows_labelled_at_indices.
      * rewrite <-list_fmap_compose, <-Hlen, Hrows.
        rewrite <-(rows_labelled_sum_length N labels rows) by done.
        f_equal. apply list_fmap_ext. intros ? k _. simpl.
        by rewrite (leaf_rows_group_of _ _ _ _ rows).
    + intros i Hi. rewrite <-Hlen in Hi.
      destruct (lookup_lt_is_Some_2 labels i Hi) as [l Hl].
      pose proof (proj1 (Forall_lookup _ _) Hrange i l Hl) as Hl'. simpl in Hl'.
      exists (Z.to_nat l). split; [lia|]. intros k'.
      rewrite elem_of_group_indices, Hl. split; [intros [= ->]; lia|].
      intros ->. f_equal. lia.
    + intros k. rewrite <-Hlen. apply group_indices_sublist.
Qed.

(** ** The constructor *)

(** *** Python's equality on specs is an equivalence *)

Lemma comparable_refl c : comparable c c = true.
Proof. destruct c; simpl; try done. by apply bool_decide_eq_true. Qed.

Lemma comparable_sym c c' : comparable c c' = true → comparable c' c = true.
Proof.
  destruct c, c'; simpl; try done.
  rewrite !bool_decide_eq_true. congruence.
Qed.

Lemma comparable_trans c1 c2 c3 :
  comparable c1 c2 = true → comparable c2 c3 = true → comparable c1 c3 = true.
Proof.
  destruct c1, c2, c3; simpl; try done.
  rewrite !bool_decide_eq_true. congruence.
Qed.

Lemma py_eqb_Node {A} `{EqDecision A} c c' (kids kids' : list (nest A)) :
  py_eqb (Node c kids) (Node c' kids') = true ↔
  comparable c c' = true ∧ Forall2 (λ x y, py_eqb x y = true) kids kids'.
Proof.
  cbn [py_eqb]. rewrite andb_true_iff. apply and_iff_compat_l.
  revert kids'. induction kids as [|k kids IH]; intros [|k' kids'].
  - split; [constructor|done].
  - split; [done|inversion 1].
  - split; [done|inversion 1].
  - rewrite andb_true_iff, IH, Forall2_cons. done.
Qed.

Lemma py_eqb_refl {A} `{EqDecision A} (x : nest A) : py_eqb x x = true.
Proof.
  induction x as [a|c kids IH] using nest_ind'.
  - by apply bool_decide_eq_true.
  - apply py_eqb_Node. split; [apply comparable_refl|].
    induction IH; by constructor.
Qed.

Lemma py_eqb_sym {A} `{EqDecision A} (x y : nest A) :
  py_eqb x y = true → py_eqb y x = true.
Proof.
  revert y. induction x as [a|c kids IH] using nest_ind'; intros [b|c' kids'];
    try done.
  - simpl. rewrite !bool_decide_eq_true. congruence.
  - rewrite !py_eqb_Node. intros [Hc Hkids].
    split; [by apply comparable_sym|].
    clear Hc. induction Hkids as [|k k' l l' Hk _ IHl]; [constructor|].
    apply Forall_cons in IH as [Hsym IH]. constructor; auto.
Qed.

Lemma py_eqb_trans {A} `{EqDecision A} (x y z : nest A) :
  py_eqb x y = true → py_eqb y z = true → py_eqb x z = true.
Proof.
  revert y z. induction x as [a|c kids IH] using nest_ind';
    intros [b|c2 kids2] [d|c3 kids3]; try done.
  - simpl. rewrite !bool_decide_eq_true. congruence.
  - rewrite !py_eqb_Node. intros [Hc12 H12] [Hc23 H23].
    split; [by eapply comparable_trans|].
    clear Hc12 Hc23. revert kids3 H23.
    induction H12 as [|k k2 l l2 Hk _ IHl]; intros kids3 H23.
    + inversion H23. constructor.
    + apply Forall_cons in IH as [Htrans IH].
      inversion H23 as [|? k3 ? l3 Hk3 Hl3]; subst.
      constructor; [by eapply Htrans|by apply IHl].
Qed.

Lemma time_step_spec_eqb_refl (a : TimeStepSpec) : time_step_spec_eqb a a = true.
Proof. unfold time_step_spec_eqb. by rewrite !py_eqb_refl. Qed.

Lemma time_step_spec_eqb_sym (a b : TimeStepSpec) :
  time_step_spec_eqb a b = true → time_step_spec_eqb b a = true.
Proof.
  unfold time_step_spec_eqb. rewrite !andb_true_iff.
  intros [[[? ?] ?] ?]. auto using @py_eqb_sym.
Qed.

Lemma time_step_spec_eqb_trans (a b c : TimeStepSpec) :
  time_step_spec_eqb a b = true → time_step_spec_eqb b c = true →
  time_step_spec_eqb a c = true.
Proof.
  unfold time_step_spec_eqb. rewrite !andb_true_iff.
  intros [[[? ?] ?] ?] [[[? ?] ?] ?]. repeat split; by eapply py_eqb_trans.
Qed.

(** *** The module's name *)

Lemma Module__init__valid name :
  valid_module_name name = true → Module__init__ name = Ok (module_name name).
Proof. destruct name as [name|]; simpl; [|done]. by intros ->. Qed.

Lemma Module__init__invalid name :
  valid_module_name name = false →
  ∃ text, name = Some text ∧
          Module__init__ name = Raise (ValueError (invalid_module_name_message text)).
Proof.
  destruct name as [name|]; simpl; [|done]. intros ->. by exists name.
Qed.

(** *** The checks *)

Lemma last_app_from_option {A} (l1 l2 : list A) :
  last (l1 ++ l2) = from_option Some (last l1) (last l2).
Proof.
  destruct l2 as [|x l2 _] using rev_ind.
  - by rewrite app_nil_r.
  - by rewrite app_assoc, !last_snoc.
Qed.

Lemma failing_messages_app checks1 checks2 :
  failing_messages (checks1 ++ checks2) =
  failing_messages checks1 ++ failing_messages checks2.
Proof. unfold failing_messages. by rewrite filter_app, fmap_app. Qed.

Section Constructor.
Context {World Loss : Type}.
Implicit Types (agent first : Agent World Loss) (agents : list (Agent World Loss)).

(** One turn of the loop keeps the message of its last failing check,
    or the message it started with. *)
Lemma check_agent_last first agent error_message :
  check_agent (time_step_spec first) (action_spec first)
              (info_spec (policy first)) error_message agent =
  from_option Some error_message
              (last (failing_messages (agent_checks first agent))).
Proof.
  unfold check_agent, agent_checks, failing_messages.
  destruct (py_eqb (action_spec first) _),
           (time_step_spec_eqb (time_step_spec first) _),
           (py_eqb (info_spec (policy first)) _); done.
Qed.

Lemma fold_check_agent_last first agents error_message :
  fold_left (check_agent (time_step_spec first) (action_spec first)
                         (info_spec (policy first))) agents error_message =
  from_option Some error_message
              (last (failing_messages (agents ≫= agent_checks first))).
Proof.
  revert error_message. induction agents as [|agent agents IH]; intros msg; [done|].
  simpl fold_left. rewrite IH, check_agent_last.
  change ((agent :: agents) ≫= agent_checks first)
    with (agent_checks first agent ++ (agents ≫= agent_checks first)).
  rewrite failing_messages_app, last_app_from_option.
  by destruct (last (failing_messages (agents ≫= _))).
Qed.

(** A name that is not an identifier is refused before anything else is
    looked at. *)
Lemma init_invalid_name mixture_weights agents name :
  valid_module_name name = false →
  ∃ text, name = Some text ∧
          __init__ mixture_weights agents name =
            Raise (ValueError (invalid_module_name_message text)).
Proof.
  intros (text & -> & Hraise)%Module__init__invalid. exists text.
  split; [done|]. unfold __init__. by rewrite Hraise.
Qed.

(** The constructor in one equation, once the name is accepted: it raises
    the message of the last failing check, and succeeds when no check
    fails. *)
Lemma init_last_failing mixture_weights first agents name :
  valid_module_name name = true →
  head agents = Some first →
  match last (failing_messages (validation_checks mixture_weights first agents)) with
  | Some msg => __init__ mixture_weights agents name = Raise (ValueError msg)
  | None => is_Ok (__init__ mixture_weights agents name)
  end.
Proof.
  intros Hname Hhead. destruct agents as [|a agents]; simplify_eq/=.
  unfold __init__, validation_checks. rewrite (Module__init__valid _ Hname).
  cbn [getitem lookup list_lookup bindR].
  rewrite fold_check_agent_last, failing_messages_app, last_app_from_option.
  cbn [drop]. unfold failing_messages at 2.
  destruct (negb (_ =? _)); simpl.
  - done.
  - rewrite drop_0.
    destruct (last (failing_messages (agents ≫= agent_checks first)));
      [done|]. by eexists.
Qed.

(** What a successful construction stores. *)
Lemma init_Ok_inv mixture_weights first agents name self :
  head agents = Some first →
  __init__ mixture_weights agents name = Ok self →
  valid_module_name name = true ∧
  self = {| _name := module_name name;
            _original_info_spec := info_spec (policy first);
            _agents := agents;
            _num_agents := length agents;
            _mixture_weights := mixture_weights;
            _time_step_spec := time_step_spec first;
            _action_spec := action_spec first;
            _policy := {| mp_mixture_weights := mixture_weights;
                          mp_policies := collect_policy <$> agents |};
            _collect_policy := {| mp_mixture_weights := mixture_weights;
                                  mp_policies := collect_policy <$> agents |};
            _train_sequence_length := None |}.
Proof.
  intros Hhead Hinit.
  destruct (valid_module_name name) eqn:Hname.
  - split; [done|]. destruct agents as [|a rest]; simplify_eq/=.
    unfold __init__ in Hinit. rewrite (Module__init__valid _ Hname) in Hinit.
    cbn [getitem lookup list_lookup bindR] in Hinit.
    destruct (if negb _ then _ else _); by simplify_eq.
  - destruct (init_invalid_name mixture_weights agents name Hname)
      as (text & _ & Hraise). congruence.
Qed.
End Constructor.

Lemma elem_of_failing_messages msg checks :
  msg ∈ failing_messages checks ↔ (true, msg) ∈ checks.
Proof.
  unfold failing_messages. rewrite list_elem_of_fmap. split.
  - intros ([b m] & -> & Hin). apply list_elem_of_filter in Hin as [Hb Hin].
    simpl in *. by subst b.
  - intros Hin. exists (true, msg). split; [done|].
    by apply list_elem_of_filter.
Qed.


Lemma last_is_Some_elem_of {A} (l : list A) x : x ∈ l → is_Some (last l).
Proof. intros Hx. rewrite last_is_Some. intros ->. by apply elem_of_nil in Hx. Qed.

Section ConstructorChecks.
Context {World Loss : Type}.
Implicit Types (agent first : Agent World Loss) (agents : list (Agent World Loss)).

(** Two agents of the list disagree on a spec exactly when some agent after
    the first disagrees with the first, which is what the constructor
    compares: Python's equality is an equivalence on the specs. *)
Lemma specs_differ_first {S} (eqb : S → S → bool) (get : Agent World Loss → S)
    first agents :
  (∀ x, eqb x x = true) →
  (∀ x y, eqb x y = true → eqb y x = true) →
  (∀ x y z, eqb x y = true → eqb y z = true → eqb x z = true) →
  head agents = Some first →
  specs_differ eqb get agents ↔
  ∃ agent, agent ∈ drop 1 agents ∧ negb (eqb (get first) (get agent)) = true.
Proof.
  intros Hrefl Hsym Htrans Hhead. destruct agents as [|a rest]; simplify_eq/=.
  rewrite drop_0.
  assert (∀ agent, agent ∈ first :: rest →
                   eqb (get first) (get agent) = false → agent ∈ rest) as Hrest.
  { intros agent [->|Hin]%elem_of_cons Hne; [|done].
    by rewrite Hrefl in Hne. }
  split.
  - intros (a & b & Ha & Hb & Hne).
    destruct (eqb (get first) (get a)) eqn:Ea.
    + destruct (eqb (get first) (get b)) eqn:Eb.
      * rewrite (Htrans _ _ _ (Hsym _ _ Ea) Eb) in Hne. done.
      * exists b. rewrite Eb. split; [by apply Hrest|done].
    + exists a. rewrite Ea. split; [by apply Hrest|done].
  - intros (agent & Hin & Hne). exists first, agent.
    split; [by left|]. split; [by right|].
    by apply negb_true_iff.
Qed.

Lemma elem_of_agent_checks first agent msg :
  (true, msg) ∈ agent_checks first agent ↔
  (msg = "Inconsistent action specs." ∧
     negb (py_eqb (action_spec first) (action_spec agent)) = true) ∨
  (msg = "Inconsistent time step specs." ∧
     negb (time_step_spec_eqb (time_step_spec first) (time_step_spec agent)) = true) ∨
  (msg = "Inconsistent info specs." ∧
     negb (py_eqb (info_spec (policy first)) (info_spec (policy agent))) = true).
Proof.
  unfold agent_checks. rewrite !elem_of_cons, elem_of_nil. split.
  - intros [[= Hb ->]|[[= Hb ->]|[[= Hb ->]|[]]]]; auto.
  - intros [[-> ->]|[[-> ->]|[-> ->]]]; auto.
Qed.

(** Which message can be among the failing ones, and when. *)
Lemma elem_of_failing_validation mixture_weights first agents msg :
  head agents = Some first →
  msg ∈ failing_messages (validation_checks mixture_weights first agents) ↔
  (msg = "`mixture_weights` and `agents` must have equal length." ∧
     length mixture_weights ≠ length agents) ∨
  (msg = "Inconsistent action specs." ∧ specs_differ py_eqb action_spec agents) ∨
  (msg = "Inconsistent time step specs." ∧
     specs_differ time_step_spec_eqb time_step_spec agents) ∨
  (msg = "Inconsistent info specs." ∧
     specs_differ py_eqb (λ agent, info_spec (policy agent)) agents).
Proof.
  intros Hhead.
  rewrite (specs_differ_first py_eqb action_spec first)
    by (done || apply @py_eqb_refl || apply @py_eqb_sym || apply @py_eqb_trans).
  rewrite (specs_differ_first time_step_spec_eqb time_step_spec first)
    by (done || apply time_step_spec_eqb_refl || apply time_step_spec_eqb_sym
        || apply time_step_spec_eqb_trans).
  rewrite (specs_differ_first py_eqb (λ agent, info_spec (policy agent)) first)
    by (done || apply @py_eqb_refl || apply @py_eqb_sym || apply @py_eqb_trans).
  rewrite elem_of_failing_messages. unfold validation_checks.
  rewrite elem_of_app, list_elem_of_singleton, list_elem_of_bind.
  setoid_rewrite elem_of_agent_checks. split.
  - intros [(agent & Hmsg & Hin)|[= Hlen ->]].
    + destruct Hmsg as [[-> ?]|[[-> ?]|[-> ?]]]; eauto 10.
    + left. split; [done|]. symmetry in Hlen.
      apply negb_true_iff, Nat.eqb_neq in Hlen. done.
  - intros [[-> Hlen]|[[-> (agent & ? & ?)]|[[-> (agent & ? & ?)]|[-> (agent & ? & ?)]]]];
      [right|left; exists agent; auto..].
    apply Nat.eqb_neq in Hlen. by rewrite Hlen.
Qed.




End ConstructorChecks.

(** ** The training step *)

Section TrainProperties.
Context {World Loss : Type}.
Variable loss_add : Loss → Loss → Loss.
Variable loss_zero : Loss.
Variable flatten_multi_batched_nested_tensors :
  nest tensor → nest TensorSpec → result (nest tensor * list nat).
Variable batch_leaf : tensor → tensor.

Implicit Types (self : StaticMixtureAgent World Loss) (groups : Groups)
  (calls : list (Call Loss)) (world : World).

(** [_train] is its routing followed by its loop. *)
Lemma train_route self experience weights s :
  _train loss_add loss_zero flatten_multi_batched_nested_tensors batch_leaf
         self experience weights s =
  match route flatten_multi_batched_nested_tensors batch_leaf self experience with
  | Raise e => (Raise e, s)
  | Ok (observations, actions, infos, rewards) =>
      bindM (for_range (seq 0 (_num_agents self))
               (train_body loss_add self observations actions infos rewards)
               loss_zero)
            (λ total, retM {| loss := total; extra := tt |}) s
  end.
Proof.
  unfold _train, route.
  repeat (unfold bindM at 1; unfold liftR at 1;
          match goal with
          | |- context [bindR ?m _] =>
              lazymatch m with
              | context [bindR] => fail
              | _ => destruct m as [?|?]; cbn [bindR]; [|done]
              end
          end;
          try match goal with p : (_ * _)%type |- _ => destruct p end).
  repeat match goal with
         | |- context [bindR ?m _] =>
             lazymatch m with
             | context [bindR] => fail
             | _ => destruct m; cbn [bindR]; try done
             end
         end.
Qed.
(** One turn of the loop: the record is built, the sub-agent is looked
    up and invoked, and its loss is added to the running sum. *)
Lemma train_body_step self observations actions infos rewards k acc world log :
  train_body loss_add self observations actions infos rewards k acc (world, log) =
  match planned_experience (observations, actions, infos, rewards) k with
  | Raise e => (Raise e, (world, log))
  | Ok experience =>
      match getitem (_agents self) k with
      | Raise e => (Raise e, (world, log))
      | Ok agent =>
          let r := (train agent experience world).1 in
          (match r with
           | Ok loss_info => Ok (loss_add acc (loss loss_info))
           | Raise e => Raise e
           end,
           ((train agent experience world).2,
            log ++ [{| call_agent := k; call_experience := experience;
                       call_result := r |}]))
      end
  end.
Proof.
  unfold train_body, planned_experience, bindM, liftR, invoke_train, retM.
  destruct (getitem observations k); cbn [bindR]; [|done].
  destruct (getitem actions k); cbn [bindR]; [|done].
  destruct (getitem_index infos k); cbn [bindR]; [|done].
  destruct (getitem rewards k); cbn [bindR]; [|done].
  destruct (tf_zeros_like _); cbn [bindR]; [|done].
  destruct (getitem (_agents self) k) as [agent|]; [|done].
  cbn [fst snd]. destruct (train agent _ world) as [[li|e] world1]; done.
Qed.

(** The loop of [_train], whatever the groups are: the invocations it
    makes are the planned ones for a prefix of the indices, in order;
    when it returns, it went through all of them and returns the losses
    added one after the other to the starting value; when it raises,
    either the last sub-agent invoked raised, or building the next record
    or looking up the next sub-agent did. *)
Lemma train_loop_spec self observations actions infos rewards ks acc world log :
  ∃ r calls world',
    for_range ks (train_body loss_add self observations actions infos rewards)
              acc (world, log) = (r, (world', log ++ calls)) ∧
    calls_from (_agents self) world calls world' ∧
    Forall2 (λ k c, call_agent c = k ∧
                    planned_experience (observations, actions, infos, rewards) k
                      = Ok (call_experience c))
            (take (length calls) ks) calls ∧
    match r with
    | Ok total =>
        length calls = length ks ∧
        Forall (λ c, is_Ok (call_result c)) calls ∧
        total = fold_left loss_add (returned_losses calls) acc
    | Raise e =>
        (∃ calls0 c, calls = calls0 ++ [c] ∧ call_result c = Raise e) ∨
        (∃ k, ks !! length calls = Some k ∧
              (planned_experience (observations, actions, infos, rewards) k
                 = Raise e ∨
               getitem (_agents self) k = Raise e))
    end.
Proof.
  revert acc world log. induction ks as [|k ks IH]; intros acc world log.
  { exists (Ok acc), [], world. rewrite app_nil_r.
    split; [done|]. split; [constructor|]. split; [constructor|].
    split; [done|]. split; [constructor|done]. }
  cbn [for_range]. unfold bindM at 1. rewrite train_body_step.
  destruct (planned_experience _ k) as [experience|e] eqn:Hplan.
  2:{ exists (Raise e), [], world. rewrite app_nil_r.
      split; [done|]. split; [constructor|]. split; [constructor|].
      right. exists k. split; [done|]. by left. }
  destruct (getitem (_agents self) k) as [agent|e] eqn:Hagent.
  2:{ exists (Raise e), [], world. rewrite app_nil_r.
      split; [done|]. split; [constructor|]. split; [constructor|].
      right. exists k. split; [done|]. by right. }
  cbn zeta.
  destruct (train agent experience world) as [r world1] eqn:Htrain. cbn [fst snd].
  set (c := {| call_agent := k; call_experience := experience; call_result := r |}).
  assert (_agents self !! k = Some agent) as Hlookup.
  { unfold getitem in Hagent. destruct (_agents self !! k); by simplify_eq. }
  destruct r as [loss_info|e].
  - destruct (IH (loss_add acc (loss loss_info)) world1 (log ++ [c]))
      as (r' & calls & world' & Hrun & Hfrom & Hplanned & Hr').
    exists r', (c :: calls), world'. rewrite Hrun, <-app_assoc.
    split; [done|]. split; [by econstructor|].
    split; [simpl; constructor; [done|done]|].
    destruct r' as [total|e].
    + destruct Hr' as (Hlen & Hok & Htotal).
      split; [simpl; congruence|]. split; [constructor; [by eexists|done]|done].
    + destruct Hr' as [(calls0 & c0 & -> & Hc0)|(k' & Hk' & Hwhy)].
      * left. by exists (c :: calls0), c0.
      * right. by exists k'.
  - exists (Raise e), [c], world1.
    split; [done|]. split; [econstructor; [done..|constructor]|].
    split; [simpl; constructor; [done|constructor]|].
    left. by exists [], c.
Qed.
Lemma route_Ok_inv self experience groups :
  route flatten_multi_batched_nested_tensors batch_leaf self experience = Ok groups →
  ∃ observations actions infos rewards,
    routed_groups flatten_multi_batched_nested_tensors
                  self experience observations actions infos rewards ∧
    groups = (batch_nested_tensors batch_leaf <$> observations,
              batch_nested_tensors batch_leaf <$> actions,
              batch_nested_tensors batch_leaf (Node PyList infos),
              batch_nested_tensors batch_leaf <$> rewards).
Proof.
  unfold route, routed_groups.
  destruct (flatten_multi_batched_nested_tensors (reward experience) _)
    as [[flat_reward d1]|] eqn:H1; cbn [bindR]; [|done].
  destruct (flatten_multi_batched_nested_tensors (action experience) _)
    as [[flat_action d2]|] eqn:H2; cbn [bindR]; [|done].
  destruct (flatten_multi_batched_nested_tensors (observation experience) _)
    as [[flat_observation d3]|] eqn:H3; cbn [bindR]; [|done].
  destruct (getitem_key _ MIXTURE_AGENT_ID) as [agent_id|] eqn:H4; cbn [bindR]; [|done].
  destruct (flatten_multi_batched_nested_tensors agent_id _)
    as [[policy_choice d4]|] eqn:H5; cbn [bindR]; [|done].
  destruct (getitem_key _ SUBPOLICY_INFO) as [subpolicy_info|] eqn:H6; cbn [bindR]; [|done].
  destruct (flatten_multi_batched_nested_tensors subpolicy_info _)
    as [[original_infos d5]|] eqn:H7; cbn [bindR]; [|done].
  destruct (_dynamic_partition_of_nested_tensors original_infos _ _)
    as [infos|] eqn:H8; cbn [bindR]; [|done].
  destruct (_dynamic_partition_of_nested_tensors flat_reward _ _)
    as [rewards|] eqn:H9; cbn [bindR]; [|done].
  destruct (_dynamic_partition_of_nested_tensors flat_action _ _)
    as [actions|] eqn:H10; cbn [bindR]; [|done].
  destruct (_dynamic_partition_of_nested_tensors flat_observation _ _)
    as [observations|] eqn:H11; cbn [bindR]; [|done].
  intros [= <-]. exists observations, actions, infos, rewards.
  split; [|done].
  exists flat_reward, flat_action, flat_observation, policy_choice,
    original_infos, agent_id, subpolicy_info, d1, d2, d3, d4, d5.
  auto 15.
Qed.

Lemma routed_groups_route self experience observations actions infos rewards :
  routed_groups flatten_multi_batched_nested_tensors
                self experience observations actions infos rewards →
  route flatten_multi_batched_nested_tensors batch_leaf self experience =
    Ok (batch_nested_tensors batch_leaf <$> observations,
        batch_nested_tensors batch_leaf <$> actions,
        batch_nested_tensors batch_leaf (Node PyList infos),
        batch_nested_tensors batch_leaf <$> rewards).
Proof.
  intros (flat_reward & flat_action & flat_observation & policy_choice &
          original_infos & agent_id & subpolicy_info & d1 & d2 & d3 & d4 & d5 &
          H1 & H2 & H3 & H4 & H5 & H6 & H7 & H8 & H9 & H10 & H11).
  unfold route. rewrite H1. cbn [bindR]. rewrite H2. cbn [bindR].
  rewrite H3. cbn [bindR]. rewrite H4. cbn [bindR]. rewrite H5. cbn [bindR].
  rewrite H6. cbn [bindR]. rewrite H7. cbn [bindR]. rewrite H8. cbn [bindR].
  rewrite H9. cbn [bindR]. rewrite H10. cbn [bindR]. rewrite H11. done.
Qed.

(** A run of [_train]: it appends its invocations to the record, and they
    are the planned ones. *)
Lemma train_spec self experience weights world log :
  ∃ r calls world',
    _train loss_add loss_zero flatten_multi_batched_nested_tensors batch_leaf
           self experience weights (world, log) = (r, (world', log ++ calls)) ∧
    calls_from (_agents self) world calls world' ∧
    match route flatten_multi_batched_nested_tensors batch_leaf self experience with
    | Raise e => r = Raise e ∧ calls = []
    | Ok groups =>
        Forall2 (λ k c, call_agent c = k ∧
                        planned_experience groups k = Ok (call_experience c))
                (take (length calls) (seq 0 (_num_agents self))) calls ∧
        match r with
        | Ok loss_info =>
            length calls = _num_agents self ∧
            Forall (λ c, is_Ok (call_result c)) calls ∧
            loss_info = {| loss := fold_left loss_add (returned_losses calls) loss_zero;
                           extra := tt |}
        | Raise e =>
            (∃ calls0 c, calls = calls0 ++ [c] ∧ call_result c = Raise e) ∨
            (length calls < _num_agents self ∧
             (planned_experience groups (length calls) = Raise e ∨
              getitem (_agents self) (length calls) = Raise e))
        end
    end.
Proof.
  rewrite train_route.
  destruct (route _ _ self experience) as [[[[observations actions] infos] rewards]|e].
  2:{ exists (Raise e), [], world. rewrite app_nil_r.
      split; [done|]. split; [constructor|done]. }
  destruct (train_loop_spec self observations actions infos rewards
              (seq 0 (_num_agents self)) loss_zero world log)
    as (r & calls & world' & Hrun & Hfrom & Hplanned & Hr).
  unfold bindM. rewrite Hrun. destruct r as [total|e].
  - exists (Ok {| loss := total; extra := tt |}), calls, world'.
    split; [done|]. split; [done|]. split; [done|].
    destruct Hr as (Hlen & Hok & ->). rewrite length_seq in Hlen. done.
  - exists (Raise e), calls, world'.
    split; [done|]. split; [done|]. split; [done|].
    destruct Hr as [?|(k & Hk & Hwhy)]; [by left|right].
    apply lookup_seq in Hk as [-> Hlt]. done.
Qed.


(** The invocations that follow a plan are determined by it. *)
Lemma planned_invocations_eq groups ks calls1 calls2 :
  Forall2 (λ k c, call_agent c = k ∧
                  planned_experience groups k = Ok (call_experience c)) ks calls1 →
  Forall2 (λ k c, call_agent c = k ∧
                  planned_experience groups k = Ok (call_experience c)) ks calls2 →
  invocations calls1 = invocations calls2.
Proof.
  intros H1. revert calls2.
  induction H1 as [|k c1 ks calls1 [Hk1 He1] _ IH]; intros calls2 H2;
    inversion H2 as [|? c2 ? calls2' [Hk2 He2] H2']; simplify_eq; [done|].
  unfold invocations in *. csimpl. rewrite (IH calls2') by done.
  do 2 f_equal; congruence.
Qed.

Lemma planned_invocations_prefix groups ks n1 n2 calls1 calls2 :
  n1 ≤ n2 →
  Forall2 (λ k c, call_agent c = k ∧
                  planned_experience groups k = Ok (call_experience c))
          (take n1 ks) calls1 →
  Forall2 (λ k c, call_agent c = k ∧
                  planned_experience groups k = Ok (call_experience c))
          (take n2 ks) calls2 →
  invocations calls1 `prefix_of` invocations calls2.
Proof.
  intros Hn H1 H2. apply (Forall2_take _ _ _ n1) in H2.
  rewrite take_take, Nat.min_l in H2 by done.
  rewrite (planned_invocations_eq groups _ calls1 (take n1 calls2) H1 H2).
  unfold invocations. rewrite fmap_take. apply prefix_take.
Qed.
End TrainProperties.

(** ** Zero tensors *)



(** ** Routing, determinism and the weights argument *)

Section TrainRouting.
Context {World Loss : Type}.
Variable loss_add : Loss → Loss → Loss.
Variable loss_zero : Loss.
Variable flatten_multi_batched_nested_tensors :
  nest tensor → nest TensorSpec → result (nest tensor * list nat).
Variable batch_leaf : tensor → tensor.

Implicit Types (self : StaticMixtureAgent World Loss)
  (calls log : list (Call Loss)) (world : World).

(** C8.  Two runs of [_train] of the same coordinator on the same batch,
    from any two worlds and with any weights arguments, route alike: of
    the two sequences of (sub-agent, transition record) they invoke, one
    is a prefix of the other, and when both runs return the sequences
    are equal, so that every sub-agent saw the same rows of every field
    in the same order. *)
Theorem train_routing_deterministic self experience weights1 weights2
    world1 world2 log1 log2 r1 r2 world1' world2' log1' log2' :
  _train loss_add loss_zero flatten_multi_batched_nested_tensors batch_leaf
         self experience weights1 (world1, log1) = (r1, (world1', log1')) →
  _train loss_add loss_zero flatten_multi_batched_nested_tensors batch_leaf
         self experience weights2 (world2, log2) = (r2, (world2', log2')) →
  ∃ calls1 calls2,
    log1' = log1 ++ calls1 ∧ log2' = log2 ++ calls2 ∧
    (invocations calls1 `prefix_of` invocations calls2 ∨
     invocations calls2 `prefix_of` invocations calls1) ∧
    (is_Ok r1 → is_Ok r2 → invocations calls1 = invocations calls2).
Proof.
  intros Hrun1 Hrun2.
  destruct (train_spec loss_add loss_zero flatten_multi_batched_nested_tensors
              batch_leaf self experience weights1 world1 log1)
    as (r1' & calls1 & w1 & Hrun1' & _ & Hroute1).
  destruct (train_spec loss_add loss_zero flatten_multi_batched_nested_tensors
              batch_leaf self experience weights2 world2 log2)
    as (r2' & calls2 & w2 & Hrun2' & _ & Hroute2).
  rewrite Hrun1 in Hrun1'. injection Hrun1' as -> -> ->.
  rewrite Hrun2 in Hrun2'. injection Hrun2' as -> -> ->.
  exists calls1, calls2. split; [done|]. split; [done|].
  destruct (route _ _ self experience) as [groups|e].
  2:{ destruct Hroute1 as [_ ->], Hroute2 as [_ ->]. split; [by left|done]. }
  destruct Hroute1 as [Hplan1 Hr1], Hroute2 as [Hplan2 Hr2]. split.
  - destruct (decide (length calls1 ≤ length calls2)).
    + left. eapply planned_invocations_prefix; [|done..]. done.
    + right. eapply planned_invocations_prefix; [|done..]. lia.
  - intros [l1 ->] [l2 ->].
    destruct Hr1 as (Hlen1 & _), Hr2 as (Hlen2 & _).
    rewrite Hlen1 in Hplan1. rewrite Hlen2 in Hplan2.
    by eapply planned_invocations_eq.
Qed.

(** C10.  The weights argument of [_train] is discarded: any two values
    of it give the same computation, hence the same result, the same
    world and the same invocations from every starting state. *)
Theorem train_ignores_weights self experience
    (weights1 weights2 : option (nest tensor)) :
  _train loss_add loss_zero flatten_multi_batched_nested_tensors batch_leaf
         self experience weights1 =
  _train loss_add loss_zero flatten_multi_batched_nested_tensors batch_leaf
         self experience weights2.
Proof. reflexivity. Qed.
End TrainRouting.

(** ** Training on a well-formed batch *)

Lemma init_Ok_agents {World Loss} (mixture_weights : list Q)
    (agents : list (Agent World Loss)) name self :
  __init__ mixture_weights agents name = Ok self →
  _agents self = agents ∧ _num_agents self = length agents ∧ agents ≠ [].
Proof.
  unfold __init__. destruct (Module__init__ name); [|done].
  destruct agents as [|first rest]; [done|].
  cbn [getitem lookup list_lookup bindR].
  destruct (if negb _ then _ else _); [done|]. by intros [= <-].
Qed.

(** Without any agent the constructor fails on its second line, if the
    name passes the first. *)
Lemma init_no_agents {World Loss} (mixture_weights : list Q) name :
  valid_module_name name = true →
  __init__ (World := World) (Loss := Loss) mixture_weights [] name = Raise IndexError.
Proof. intros Hname. unfold __init__. by rewrite (Module__init__valid _ Hname). Qed.

Section TrainValid.
Context {World Loss : Type}.
Variable loss_add : Loss → Loss → Loss.
Variable loss_zero : Loss.
Variable flatten_multi_batched_nested_tensors :
  nest tensor → nest TensorSpec → result (nest tensor * list nat).
Variable batch_leaf : tensor → tensor.

Implicit Types (self : StaticMixtureAgent World Loss)
  (calls log : list (Call Loss)) (world : World).

Lemma calls_from_lookup agents world calls world' i c :
  calls_from agents world calls world' → calls !! i = Some c →
  ∃ agent world0,
    agents !! call_agent c = Some agent ∧
    (train agent (call_experience c) world0).1 = call_result c.
Proof.
  intros Hfrom. revert i.
  induction Hfrom as [|w c0 agent w1 calls w' Hagent Htrain _ IH]; intros i Hi;
    [done|].
  destruct i as [|i]; simplify_eq/=; [|by eapply IH].
  exists agent, w. by rewrite Htrain.
Qed.

Lemma returned_losses_length calls :
  Forall (λ c, is_Ok (call_result c)) calls →
  length (returned_losses calls) = length calls.
Proof.
  induction 1 as [|c calls [li Hli] _ IH]; [done|].
  unfold returned_losses in *. csimpl. rewrite Hli. csimpl. by rewrite IH.
Qed.

Lemma returned_losses_lookup calls i c loss_info :
  Forall (λ c, is_Ok (call_result c)) calls →
  calls !! i = Some c → call_result c = Ok loss_info →
  returned_losses calls !! i = Some (loss loss_info).
Proof.
  intros Hok. revert i.
  induction Hok as [|c0 calls [li Hli] _ IH]; intros i Hi Hc; [done|].
  unfold returned_losses in *. csimpl. rewrite Hli. csimpl.
  destruct i as [|i]; simplify_eq/=; [congruence|]. by apply IH.
Qed.
Lemma valid_batch_routed self experience labels M
    flat_reward flat_action flat_observation original_infos :
  _num_agents self ≠ 0 →
  valid_batch flatten_multi_batched_nested_tensors self experience labels M
              flat_reward flat_action flat_observation original_infos →
  flatten flat_action ≠ [] → flatten flat_observation ≠ [] →
  flatten original_infos ≠ [] →
  routed_groups flatten_multi_batched_nested_tensors self experience
    ((λ k, group_of labels k flat_observation) <$> seq 0 (_num_agents self))
    ((λ k, group_of labels k flat_action) <$> seq 0 (_num_agents self))
    ((λ k, group_of labels k original_infos) <$> seq 0 (_num_agents self))
    ((λ k, group_of labels k (Leaf flat_reward)) <$> seq 0 (_num_agents self)).
Proof.
  intros HN (agent_id & subpolicy_info & d1 & d2 & d3 & d4 & d5 &
             H1 & H2 & H3 & H4 & H5 & H6 & H7 &
             Hr & Ha & Ho & Hi & Hlen & Hrange) Hla Hlo Hli.
  exists (Leaf flat_reward), flat_action, flat_observation,
    (Leaf (vector labels)), original_infos, agent_id, subpolicy_info,
    d1, d2, d3, d4, d5.
  repeat (split; [done|]).
  split; [|split; [|split]];
    apply (partition_row_aligned _ labels _ M); try done.
  by repeat constructor.
Qed.

Lemma planned_experience_valid labels N flat_reward
    flat_action flat_observation original_infos k :
  k < N →
  planned_experience
    (batch_nested_tensors batch_leaf <$>
       ((λ k, group_of labels k flat_observation) <$> seq 0 N),
     batch_nested_tensors batch_leaf <$>
       ((λ k, group_of labels k flat_action) <$> seq 0 N),
     batch_nested_tensors batch_leaf
       (Node PyList ((λ k, group_of labels k original_infos) <$> seq 0 N)),
     batch_nested_tensors batch_leaf <$>
       ((λ k, group_of labels k (Leaf flat_reward)) <$> seq 0 N)) k =
  Ok (routed_experience batch_leaf labels flat_reward
        flat_action flat_observation original_infos k).
Proof.
  intros Hk. unfold planned_experience.
  cbn [batch_nested_tensors map_structure getitem_index].
  unfold getitem. rewrite !list_lookup_fmap, !lookup_seq_lt by done.
  done.
Qed.


(** X11.  On a well-formed batch whose four routed structures have at
    least one leaf each, with sub-agents whose [train] returns, [_train] invokes
    the sub-agents [0 .. N-1] once each in this order, sub-agent [k] with
    the record of group [k], and returns the losses added one after the
    other to the starting value. *)
Lemma train_on_valid_batch mixture_weights agents name self experience weights
    labels M flat_reward flat_action flat_observation original_infos world log :
  __init__ mixture_weights agents name = Ok self →
  valid_batch flatten_multi_batched_nested_tensors self experience labels M
              flat_reward flat_action flat_observation original_infos →
  flatten flat_action ≠ [] → flatten flat_observation ≠ [] →
  flatten original_infos ≠ [] →
  (∀ agent e w, agent ∈ agents → is_Ok (train agent e w).1) →
  ∃ calls world',
    _train loss_add loss_zero flatten_multi_batched_nested_tensors batch_leaf
           self experience weights (world, log) =
      (Ok {| loss := fold_left loss_add (returned_losses calls) loss_zero;
             extra := tt |},
       (world', log ++ calls)) ∧
    calls_from agents world calls world' ∧
    call_agent <$> calls = seq 0 (length agents) ∧
    length (returned_losses calls) = length agents ∧
    ∀ k c, calls !! k = Some c →
      call_experience c =
        routed_experience batch_leaf labels flat_reward
                          flat_action flat_observation original_infos k ∧
      ∃ loss_info, call_result c = Ok loss_info ∧
                   returned_losses calls !! k = Some (loss loss_info).
Proof.
  intros Hinit Hvalid Hla Hlo Hli Htotal.
  apply init_Ok_agents in Hinit as (Hagents & HN & Hne).
  assert (_num_agents self ≠ 0) as HN0.
  { rewrite HN. by destruct agents. }
  pose proof (valid_batch_routed _ _ _ _ _ _ _ _ HN0 Hvalid Hla Hlo Hli) as Hrouted.
  apply (routed_groups_route _ batch_leaf) in Hrouted.
  destruct (train_spec loss_add loss_zero flatten_multi_batched_nested_tensors
              batch_leaf self experience weights world log)
    as (r & calls & world' & Hrun & Hfrom & Hroute).
  rewrite Hrouted in Hroute. destruct Hroute as [Hplanned Hr].
  rewrite Hagents in *.
  destruct r as [loss_info|e].
  - destruct Hr as (Hlen & Hok & ->).
    exists calls, world'. split; [done|]. split; [done|].
    rewrite Hlen, take_ge in Hplanned by (by rewrite length_seq).
    split; [|split].
    + rewrite <-HN. apply list_eq. intros i. rewrite list_lookup_fmap.
      destruct (seq 0 (_num_agents self) !! i) as [k|] eqn:Hk.
      * destruct (Forall2_lookup_l _ _ _ _ _ Hplanned Hk) as (c & Hc & Hkc & _).
        rewrite Hc. simpl. by rewrite Hkc.
      * apply Forall2_length in Hplanned. apply lookup_ge_None in Hk.
        rewrite (lookup_ge_None_2 calls) by lia. done.
    + rewrite returned_losses_length by done. lia.
    + intros k c Hc.
      destruct (Forall2_lookup_r _ _ _ _ _ Hplanned Hc) as (k' & Hk' & _ & Hplan).
      apply lookup_seq in Hk' as [Hkk Hlt]. simpl in Hkk. subst k'.
      rewrite planned_experience_valid in Hplan by done.
      split; [congruence|].
      destruct (proj1 (Forall_lookup _ _) Hok _ _ Hc) as [li Hli'].
      exists li. split; [done|]. by apply returned_losses_lookup with c.
  - exfalso. destruct Hr as [(calls0 & c & -> & Hc)|(Hlt & [Hplan|Hagent])].
    + destruct (calls_from_lookup _ _ _ _ (length calls0) c Hfrom)
        as (agent & w0 & Hagent & Hres).
      { by rewrite lookup_app_r, Nat.sub_diag. }
      destruct (Htotal agent (call_experience c) w0) as [li Hli'].
      { by eapply list_elem_of_lookup_2. }
      congruence.
    + rewrite planned_experience_valid in Hplan by done. done.
    + unfold getitem in Hagent. rewrite HN in Hlt.
      destruct (lookup_lt_is_Some_2 agents _ Hlt) as [a Ha]. by rewrite Ha in Hagent.
Qed.

(** A group without rows is handled like any other: listed among the
    invocations at its index, with a record whose leaves all have zero
    rows. *)
Lemma empty_group_zero_rows labels k (x : nest tensor) :
  row_aligned (length labels) x → group_indices labels k = [] →
  Forall (λ t, t = Rows []) (flatten (group_of labels k x)).
Proof.
  intros Halign Hempty. unfold group_of. rewrite flatten_map_structure.
  apply Forall_fmap. eapply Forall_impl; [apply Halign|].
  intros [v|rows]; simpl; [done|]. intros [= Hlen]. f_equal.
  pose proof (rows_labelled_at_indices k labels rows (eq_sym Hlen)) as Hat.
  rewrite Hempty in Hat. by inversion Hat.
Qed.
(** When the partition of the sub-policy infos returns no group, which is
    what it does on infos without leaves, [_train] raises [IndexError] in
    the first turn of its loop and trains no sub-agent, whatever the batch
    and the helpers are. *)
Lemma train_raises_without_info_groups self experience weights
    observations actions rewards world log :
  _num_agents self ≠ 0 →
  routed_groups flatten_multi_batched_nested_tensors self experience
                observations actions [] rewards →
  _train loss_add loss_zero flatten_multi_batched_nested_tensors batch_leaf
         self experience weights (world, log) = (Raise IndexError, (world, log)).
Proof.
  intros HN Hrouted. rewrite train_route.
  rewrite (routed_groups_route _ batch_leaf _ _ _ _ _ _ Hrouted).
  destruct (_num_agents self) as [|n]; [done|].
  cbn [seq for_range]. unfold bindM. rewrite train_body_step.
  unfold planned_experience, getitem.
  destruct (_ !! 0); cbn [bindR]; [|done].
  destruct (_ !! 0); cbn [bindR]; done.
Qed.
End TrainValid.

(** ** The scenarios of the specification, run on the concrete setting *)

Example partition_example :
  _dynamic_partition_of_nested_tensors example_nested (Leaf (vector example_labels)) 2 =
  Ok [ Node PyTuple
         [ Leaf (vector [10; 12]%Z);
           Node (PyDict ["context"]) [Leaf (Rows [vector [1; 2]; vector [5; 6]]%Z)] ];
       Node PyTuple
         [ Leaf (vector [11; 13]%Z);
           Node (PyDict ["context"]) [Leaf (Rows [vector [3; 4]; vector [7; 8]]%Z)] ] ].
Proof. reflexivity. Qed.

Example partition_label_out_of_range :
  _dynamic_partition_of_nested_tensors example_nested (Leaf (vector [0; 2; 0; 1]%Z)) 2 =
  Raise InvalidArgumentError.
Proof. reflexivity. Qed.

Example partition_too_few_labels :
  _dynamic_partition_of_nested_tensors example_nested (Leaf (vector [0; 1; 0]%Z)) 2 =
  Raise InvalidArgumentError.
Proof. reflexivity. Qed.

Example group_indices_example :
  group_indices example_labels 0 = [0; 2] ∧ group_indices example_labels 1 = [1; 3].
Proof. split; reflexivity. Qed.

Example init_length_message_overrides :
  __init__ (unit_weights 1) [counting_agent one_number_info 100; odd_agent] None =
  Raise (ValueError "`mixture_weights` and `agents` must have equal length.").
Proof. reflexivity. Qed.

(** Two sub-agents, mixture_agent_id [0, 1, 0, 1]: sub-agent 0 is trained
    on rows 0 and 2, sub-agent 1 on rows 1 and 3, and the loss is the sum
    of the two returned losses. *)
Example train_two_agents_scenario :
  ∃ self calls,
    __init__ (unit_weights 2) two_agents None = Ok self ∧
    example_train self (example_experience [0; 1; 0; 1]%Z one_number_values) None (0, [])
      = (Ok {| loss := (102 + 202)%Z; extra := tt |}, (2, calls)) ∧
    call_agent <$> calls = [0; 1] ∧
    (reward ∘ call_experience) <$> calls =
      [Leaf (Rows [vector [5; 7]%Z]); Leaf (Rows [vector [6; 8]%Z])] ∧
    call_result <$> calls =
      [Ok {| loss := 102%Z; extra := tt |}; Ok {| loss := 202%Z; extra := tt |}].
Proof. eexists _, _. split; [reflexivity|]. split; [vm_compute; reflexivity|done]. Qed.

(** Three sub-agents, every mixture_agent_id equal to 0: sub-agents 1 and 2
    are still trained, on records without rows, and their losses are
    summed in. *)
Example train_empty_groups_scenario :
  ∃ self calls,
    __init__ (unit_weights 3) three_agents None = Ok self ∧
    example_train self (example_experience [0; 0; 0; 0]%Z one_number_values) None (0, [])
      = (Ok {| loss := (104 + 200 + 300)%Z; extra := tt |}, (3, calls)) ∧
    call_agent <$> calls = [0; 1; 2] ∧
    (reward ∘ call_experience) <$> calls =
      [Leaf (Rows [vector [5; 6; 7; 8]%Z]); Leaf (Rows [Rows []]); Leaf (Rows [Rows []])].
Proof. eexists _, _. split; [reflexivity|]. split; [vm_compute; reflexivity|done]. Qed.

(** ** Structures without leaves *)

(** C3.  What the code does on a structure without leaves, here the empty
    tuple that a policy without info reports: asked for two groups, the
    partition returns none, where the specification (and the loop of [_train])
    expects two groups shaped like the input. *)
Theorem partition_of_leafless_structure_has_no_group :
  ∃ groups,
    _dynamic_partition_of_nested_tensors
      (Node PyTuple []) (Leaf (vector [0; 1; 0; 1]%Z)) 2 = Ok groups ∧
    length groups = 0.
Proof. exists []. split; reflexivity. Qed.

(** C1.  What the code does on a well-formed batch whose sub-policy info
    has no leaf (two sub-agents whose policies report nothing):
    [_train] raises [IndexError] when it looks up the infos of group 0,
    and no sub-agent is trained. *)
Theorem train_raises_on_leafless_policy_info :
  ∃ self,
    __init__ (unit_weights 2) two_silent_agents None = Ok self ∧
    valid_batch flatten_outer_two self
      (example_experience [0; 1; 0; 1]%Z no_info_values) [0; 1; 0; 1]%Z 4
      (vector [5; 6; 7; 8]%Z) (Leaf (vector [0; 1; 1; 0]%Z))
      (Leaf (Rows [vector [10; 11]; vector [20; 21]; vector [30; 31]; vector [40; 41]]%Z))
      (Node PyTuple []) ∧
    example_train self (example_experience [0; 1; 0; 1]%Z no_info_values) None (0, [])
      = (Raise IndexError, (0, [])).
Proof.
  eexists. split; [reflexivity|]. split; [|vm_compute; reflexivity].
  eexists _, _, _, _, _, _, _.
  do 7 (split; [vm_compute; reflexivity|]).
  split; [reflexivity|].
  do 3 (split; [by repeat constructor|]).
  split; [reflexivity|]. repeat constructor; simpl; lia.
Qed.

(** C7.  What the code does when a group is empty and the sub-policy info
    has no leaf (three sub-agents whose policies report nothing, every
    mixture_agent_id equal to 0): [_train] raises [IndexError] before any
    invocation, so sub-agents 1 and 2, whose groups have no row, are never
    trained. *)
Theorem train_skips_empty_groups_on_leafless_policy_info :
  ∃ self,
    __init__ (unit_weights 3) three_silent_agents None = Ok self ∧
    group_indices [0; 0; 0; 0]%Z 1 = [] ∧
    group_indices [0; 0; 0; 0]%Z 2 = [] ∧
    example_train self (example_experience [0; 0; 0; 0]%Z no_info_values) None (0, [])
      = (Raise IndexError, (0, [])).
Proof.
  eexists. split; [reflexivity|]. repeat (split; [reflexivity|]).
  vm_compute. reflexivity.
Qed.

(** ** The theorems at concrete inputs *)

Lemma partition_is_bijection_on_rows_witness :
  (0 < 2 ∧ row_aligned 4 example_nested ∧ length example_labels = 4 ∧
   labels_in_range 2 example_labels) ∧
  ∃ groups,
    _dynamic_partition_of_nested_tensors
      example_nested (Leaf (vector example_labels)) 2 = Ok groups ∧
    (∀ j rows, flatten example_nested !! j = Some (Rows rows) →
       length groups = 2 ∧
       (∀ k, k < 2 → ∃ g,
          groups !! k = Some g ∧
          Forall2 (λ i r, rows !! i = Some r)
                  (group_indices example_labels k) (leaf_rows g j)) ∧
       sum_list ((λ g, length (leaf_rows g j)) <$> groups) = 4) ∧
    (∀ i k, i ∈ group_indices example_labels k ↔
            example_labels !! i = Some (Z.of_nat k)) ∧
    (∀ i, i < 4 → ∃ k, k < 2 ∧ ∀ k', i ∈ group_indices example_labels k' ↔ k' = k) ∧
    (∀ k, group_indices example_labels k `sublist_of` seq 0 4).
Proof.
  assert (0 < 2 ∧ row_aligned 4 example_nested ∧ length example_labels = 4 ∧
          labels_in_range 2 example_labels) as Hhyps.
  { split; [lia|]. split; [by repeat constructor|]. split; [reflexivity|].
    repeat constructor; simpl; lia. }
  split; [exact Hhyps|]. destruct Hhyps as (H1 & H2 & H3 & H4).
  exact (partition_is_bijection_on_rows example_nested example_labels 2 4 H1 H2 H3 H4).
Defined.








Lemma train_routing_deterministic_witness :
  ∃ self,
    __init__ (unit_weights 2) two_agents None = Ok self ∧
    ∃ r1 r2 world1' world2' log1' log2',
      example_train self (example_experience [0; 1; 0; 1]%Z one_number_values)
                    None (0, []) = (r1, (world1', log1')) ∧
      example_train self (example_experience [0; 1; 0; 1]%Z one_number_values)
                    (Some (Leaf (vector [1; 1; 1; 1]%Z))) (7, [])
        = (r2, (world2', log2')) ∧
      ∃ calls1 calls2,
        log1' = [] ++ calls1 ∧ log2' = [] ++ calls2 ∧
        (invocations calls1 `prefix_of` invocations calls2 ∨
         invocations calls2 `prefix_of` invocations calls1) ∧
        (is_Ok r1 → is_Ok r2 → invocations calls1 = invocations calls2).
Proof.
  eexists. split; [reflexivity|].
  lazymatch goal with
  | |- context [example_train ?s ?e None] =>
      eexists _, _, _, _, _, _;
      split; [vm_compute; reflexivity|]; split; [vm_compute; reflexivity|];
      apply (train_routing_deterministic Z.add 0%Z flatten_outer_two add_batch_dim
               s e None (Some (Leaf (vector [1; 1; 1; 1]%Z))) 0 7 [] [] _ _ 2 9);
      vm_compute; reflexivity
  end.
Defined.

(** * Further properties of the code *)

(** ** When the nested partition succeeds, and how it fails *)

Lemma scatter_vector_Ok_inv n labels data outputs outputs' :
  scatter n (vector labels) data outputs = Ok outputs' →
  ∃ rows, data = Rows rows ∧ length labels = length rows ∧ labels_in_range n labels.
Proof.
  unfold vector. simpl. destruct data as [v|rows]; [done|].
  intros Hgo. exists rows. split; [done|]. revert rows outputs Hgo.
  induction labels as [|l labels IH]; intros [|r rows] outputs; csimpl; try done.
  - intros _. split; [done|constructor].
  - case_decide as Hl; [|done]. cbn [bindR]. intros Hgo.
    destruct (IH _ _ Hgo) as [Hlen Hrange].
    split; [by f_equal|by constructor].
Qed.

Lemma scatter_Raise n partitions data outputs e :
  scatter n partitions data outputs = Raise e → e = InvalidArgumentError.
Proof.
  revert data outputs.
  induction partitions as [l|ps IH] using tensor_ind'; intros data outputs; simpl.
  - case_decide; [done|]. by intros [= <-].
  - destruct data as [|ds]; [by intros [= <-]|]. revert ds outputs.
    induction IH as [|p ps Hp _ IHps]; intros [|d ds] outputs;
      try (by intros [= <-]); try done.
    destruct (scatter n p d outputs) as [o|e'] eqn:E; cbn [bindR].
    + apply IHps.
    + intros [= <-]. by eapply Hp.
Qed.

Lemma dynamic_partition_Raise data partitions n e :
  dynamic_partition data partitions n = Raise e →
  e = InvalidArgumentError ∨
  (e = TypeError ∧ ∃ c kids, partitions = Node c kids).
Proof.
  unfold dynamic_partition. case_decide; [intros [= <-]; by left|].
  destruct partitions as [p|c kids]; cbn [convert_to_tensor bindR].
  - destruct (scatter n p data _) as [o|e'] eqn:E; cbn [bindR]; [done|].
    intros [= <-]. left. by eapply scatter_Raise.
  - intros [= <-]. right. eauto.
Qed.

Lemma dynamic_partition_vector_Ok_inv data labels n outs :
  dynamic_partition data (Leaf (vector labels)) n = Ok outs →
  n ≠ 0 ∧ num_rows data = Some (length labels) ∧ labels_in_range n labels.
Proof.
  unfold dynamic_partition. case_decide as Hn; [done|].
  cbn [convert_to_tensor bindR].
  destruct (scatter n (vector labels) data _) as [o|] eqn:E; cbn [bindR]; [|done].
  intros _. apply scatter_vector_Ok_inv in E as (rows & -> & Hlen & Hrange).
  simpl. by rewrite Hlen.
Qed.

Lemma mapR_Raise_inv {A B} (f : A → result B) l e :
  mapR f l = Raise e → ∃ x, x ∈ l ∧ f x = Raise e.
Proof.
  induction l as [|x l IH]; simpl; [done|].
  destruct (f x) as [y|e'] eqn:Hx; cbn [bindR].
  - destruct (mapR f l) as [ys|e'']; cbn [bindR]; [done|].
    intros [= <-]. destruct IH as (x' & ? & ?); [done|].
    exists x'. split; [by right|done].
  - intros [= <-]. exists x. split; [by left|done].
Qed.

Lemma mapR_is_Ok {A B} (f : A → result B) l :
  Forall (λ x, is_Ok (f x)) l → is_Ok (mapR f l).
Proof.
  induction 1 as [|x l [y Hy] _ [ys Hys]]; simpl; [by eexists|].
  rewrite Hy, Hys. by eexists.
Qed.

(** Once every leaf is partitioned, re-assembling the groups cannot fail:
    every column of the transpose has one entry per leaf. *)
Lemma partition_pack_is_Ok (nested : nest tensor) partitions n flat :
  mapR (λ t, dynamic_partition t partitions n) (flatten nested) = Ok flat →
  is_Ok (mapR (λ i, pack_sequence_as nested i) (zip_star flat)).
Proof.
  intros Hflat%mapR_Ok_Forall2. apply mapR_is_Ok.
  eapply Forall_impl; [apply zip_star_Forall_length|].
  intros col Hcol. simpl in Hcol.
  destruct (pack_sequence_as_flat nested col) as (y & Hy & _).
  { rewrite Hcol. symmetry. by eapply Forall2_length. }
  by exists y.
Qed.

(** What a success of the partition under a vector of labels tells. *)
Lemma partition_vector_Ok_inv nested labels n groups :
  _dynamic_partition_of_nested_tensors nested (Leaf (vector labels)) n = Ok groups →
  flatten nested = [] ∨
  (n ≠ 0 ∧ labels_in_range n labels ∧ row_aligned (length labels) nested).
Proof.
  unfold _dynamic_partition_of_nested_tensors.
  destruct (mapR _ (flatten nested)) as [flat|] eqn:Hflat; cbn [bindR]; [|done].
  intros _. apply mapR_Ok_Forall2 in Hflat.
  destruct (flatten nested) as [|t ts] eqn:Hleaves; [by left|right].
  assert (Forall (λ t, n ≠ 0 ∧ num_rows t = Some (length labels) ∧
                       labels_in_range n labels) (t :: ts)) as Hall.
  { clear Hleaves. induction Hflat as [|t' outs ?? Ht _ IH]; constructor; [|done].
    by eapply dynamic_partition_vector_Ok_inv. }
  pose proof (Forall_inv Hall) as (Hn & _ & Hrange).
  split; [done|]. split; [done|]. unfold row_aligned. rewrite Hleaves.
  eapply Forall_impl; [apply Hall|]. by intros ? (_ & ? & _).
Qed.

(** What an exception of the partition tells. *)
Lemma partition_Raise_inv nested partitions n e :
  _dynamic_partition_of_nested_tensors nested partitions n = Raise e →
  flatten nested ≠ [] ∧
  (e = InvalidArgumentError ∨
   (e = TypeError ∧ ∃ c kids, partitions = Node c kids)).
Proof.
  unfold _dynamic_partition_of_nested_tensors.
  destruct (mapR _ (flatten nested)) as [flat|e'] eqn:Hflat; cbn [bindR].
  - intros Hpack. destruct (partition_pack_is_Ok nested partitions n flat Hflat)
      as [groups Hgroups]. congruence.
  - intros [= <-]. apply mapR_Raise_inv in Hflat as (t & Ht & Hraise).
    split; [intros Hnil; rewrite Hnil in Ht; by apply elem_of_nil in Ht|].
    by eapply dynamic_partition_Raise.
Qed.

(** X1.  Whatever its arguments, every group the nested partition returns
    has the tree shape of the input structure. *)
Theorem partition_groups_have_input_shape (nested partitions : nest tensor)
    (n : nat) (groups : list (nest tensor)) :
  _dynamic_partition_of_nested_tensors nested partitions n = Ok groups →
  ∀ g, g ∈ groups → shape g = shape nested.
Proof.
  intros Hgroups g Hg.
  by apply (proj1 (Forall_forall _ _) (partition_preserves_shape _ _ _ _ Hgroups)).
Qed.

(** X2.  A successful nested partition returns [num_partitions] groups when
    the input has a leaf, and no group at all when it has none. *)
Theorem partition_number_of_groups (nested partitions : nest tensor)
    (n : nat) (groups : list (nest tensor)) :
  _dynamic_partition_of_nested_tensors nested partitions n = Ok groups →
  length groups = if decide (flatten nested = []) then 0 else n.
Proof.
  intros Hgroups. case_decide as Hleaf.
  - rewrite partition_leafless in Hgroups by done. by simplify_eq.
  - by eapply partition_group_count.
Qed.

(** X3.  Under a vector of labels the nested partition succeeds exactly
    when the input has no leaf, or [num_partitions] is at least 1, every
    label is in [0, num_partitions) and every leaf has as many rows as
    there are labels. *)
Theorem partition_succeeds_iff (nested : nest tensor) (labels : list Z) (n : nat) :
  is_Ok (_dynamic_partition_of_nested_tensors nested (Leaf (vector labels)) n) ↔
  flatten nested = [] ∨
  (n ≠ 0 ∧ labels_in_range n labels ∧ row_aligned (length labels) nested).
Proof.
  split.
  - intros [groups Hgroups]. by eapply partition_vector_Ok_inv.
  - intros [Hleaf|(Hn & Hrange & Halign)].
    + rewrite partition_leafless by done. by eexists.
    + destruct (decide (flatten nested = [])) as [Hleaf|Hleaf].
      * rewrite partition_leafless by done. by eexists.
      * rewrite (partition_row_aligned nested labels n (length labels)) by done.
        by eexists.
Qed.

(** X4.  With a tensor as partitions argument, the nested partition raises
    nothing but the [InvalidArgumentError] of [tf.dynamic_partition] on
    some leaf: re-assembling the groups never fails, and an input without
    leaves never raises. *)
Theorem partition_raises_only_from_dynamic_partition
    (nested : nest tensor) (partitions : tensor) (n : nat) (e : exn) :
  _dynamic_partition_of_nested_tensors nested (Leaf partitions) n = Raise e →
  flatten nested ≠ [] ∧ e = InvalidArgumentError.
Proof.
  intros Hraise.
  apply partition_Raise_inv in Hraise as [Hleaf [->|[_ (c & kids & ?)]]]; done.
Qed.

(** X5.  On an input with at least one leaf, a label outside
    [0, num_partitions), a leaf whose number of rows is not the number of
    labels, or [num_partitions = 0] makes the nested partition raise
    [InvalidArgumentError]. *)
Theorem partition_rejects_invalid_call (nested : nest tensor) (labels : list Z)
    (n : nat) :
  flatten nested ≠ [] →
  ¬ (n ≠ 0 ∧ labels_in_range n labels ∧ row_aligned (length labels) nested) →
  _dynamic_partition_of_nested_tensors nested (Leaf (vector labels)) n =
    Raise InvalidArgumentError.
Proof.
  intros Hleaf Hinvalid.
  destruct (_dynamic_partition_of_nested_tensors _ _ _) as [groups|e] eqn:Hrun.
  - apply partition_vector_Ok_inv in Hrun as [?|?]; done.
  - apply partition_Raise_inv in Hrun as [_ [->|[_ (c & kids & ?)]]]; done.
Qed.

(** ** What the groups hold *)

Lemma rows_labelled_all (labels : list Z) {A} (rows : list A) :
  Forall (λ l, l = 0%Z) labels → length labels = length rows →
  rows_labelled 0 labels rows = rows.
Proof.
  intros Hzero. revert rows.
  induction Hzero as [|l labels -> _ IH]; intros [|r rows] Hlen; simplify_eq/=;
    [done|]. by rewrite IH.
Qed.

Lemma length_rows_labelled {A} k labels (rows : list A) :
  length labels = length rows →
  length (rows_labelled k labels rows) =
  length (filter (λ l, l = Z.of_nat k) labels).
Proof.
  revert rows. induction labels as [|l labels IH]; intros [|r rows] Hlen;
    simplify_eq/=; [done|].
  rewrite filter_cons. case_decide; simpl; by rewrite IH.
Qed.

Lemma map_structure_id_on_leaves {A} (f : A → A) (x : nest A) :
  Forall (λ a, f a = a) (flatten x) → map_structure f x = x.
Proof.
  intros Hid. apply shape_flatten_inj.
  - apply shape_map_structure.
  - rewrite flatten_map_structure. rewrite <-(list_fmap_id (flatten x)) at 2.
    apply list_fmap_ext. intros i a Ha.
    by apply (proj1 (Forall_lookup _ _) Hid i a).
Qed.

(** X6.  On a valid call, regrouping neither drops nor duplicates a row:
    for every leaf of the input, the rows of the groups [0 .. N-1] put end
    to end are a permutation of the leaf's rows. *)
Theorem partition_keeps_the_rows (nested : nest tensor) (labels : list Z)
    (N M : nat) :
  0 < N → row_aligned M nested → length labels = M → labels_in_range N labels →
  ∃ groups,
    _dynamic_partition_of_nested_tensors nested (Leaf (vector labels)) N = Ok groups ∧
    ∀ j rows, flatten nested !! j = Some (Rows rows) →
      mjoin ((λ g, leaf_rows g j) <$> groups) ≡ₚ rows.
Proof.
  intros HN Halign Hlen Hrange.
  destruct (decide (flatten nested = [])) as [Hleaf|Hleaf].
  - exists []. split; [by apply partition_leafless|].
    intros j rows Hj. by rewrite Hleaf in Hj.
  - exists ((λ k, group_of labels k nested) <$> seq 0 N).
    split; [apply (partition_row_aligned nested labels N M); (done || lia)|].
    intros j rows Hj.
    assert (length labels = length rows) as Hrows.
    { pose proof (proj1 (Forall_lookup _ _) Halign j _ Hj) as Hm.
      simpl in Hm. congruence. }
    rewrite <-list_fmap_compose.
    assert (((λ g, leaf_rows g j) ∘ (λ k, group_of labels k nested)) <$> seq 0 N
            = (λ k, rows_labelled k labels rows) <$> seq 0 N) as ->.
    { apply list_fmap_ext. intros ? k _. simpl. by apply leaf_rows_group_of. }
    by apply rows_labelled_Permutation.
Qed.

(** X7.  With a single partition the nested partition is the identity: on
    a row-aligned structure with a leaf, all labels being 0, it returns the
    input itself as its one group. *)
Theorem partition_into_one_group (nested : nest tensor) (labels : list Z) :
  flatten nested ≠ [] → row_aligned (length labels) nested →
  Forall (λ l, l = 0%Z) labels →
  _dynamic_partition_of_nested_tensors nested (Leaf (vector labels)) 1 = Ok [nested].
Proof.
  intros Hleaf Halign Hzero.
  rewrite (partition_row_aligned nested labels 1 (length labels)); try done.
  - simpl. do 2 f_equal. unfold group_of. apply map_structure_id_on_leaves.
    eapply Forall_impl; [apply Halign|]. intros [v|rows]; simpl; [done|].
    intros [= Hm]. f_equal. by apply rows_labelled_all.
  - eapply Forall_impl; [apply Hzero|]. intros l ->. simpl. lia.
Qed.

(** X8.  On a valid call every leaf of group [k] has the same number of
    rows, the number of labels equal to [k]. *)
Theorem partition_groups_are_row_aligned (nested : nest tensor)
    (labels : list Z) (N M : nat) :
  0 < N → row_aligned M nested → length labels = M → labels_in_range N labels →
  ∃ groups,
    _dynamic_partition_of_nested_tensors nested (Leaf (vector labels)) N = Ok groups ∧
    ∀ k g, groups !! k = Some g →
      row_aligned (length (filter (λ l, l = Z.of_nat k) labels)) g.
Proof.
  intros HN Halign Hlen Hrange.
  destruct (decide (flatten nested = [])) as [Hleaf|Hleaf].
  - exists []. split; [by apply partition_leafless|]. by intros k g Hg.
  - exists ((λ k, group_of labels k nested) <$> seq 0 N).
    split; [apply (partition_row_aligned nested labels N M); (done || lia)|].
    intros k g Hg. apply list_lookup_fmap_Some in Hg as (k' & -> & Hk').
    apply lookup_seq in Hk' as [-> _]. simpl.
    unfold row_aligned, group_of. rewrite flatten_map_structure.
    apply Forall_fmap. eapply Forall_impl; [apply Halign|].
    intros [v|rows]; simpl; [done|]. intros [= Hm]. f_equal.
    apply length_rows_labelled. congruence.
Qed.

(** ** What the constructor leaves behind *)

Section ConstructorFurther.
Context {World Loss : Type}.
Implicit Types (agent first : Agent World Loss) (agents : list (Agent World Loss)).

(** On success no check failed. *)
Lemma init_Ok_no_failing_check mixture_weights first agents name self :
  head agents = Some first →
  __init__ mixture_weights agents name = Ok self →
  failing_messages (validation_checks mixture_weights first agents) = [].
Proof.
  intros Hhead Hok.
  destruct (init_Ok_inv _ _ _ _ _ Hhead Hok) as [Hname _].
  pose proof (init_last_failing mixture_weights first agents name Hname Hhead)
    as Hinit.
  destruct (last (failing_messages _)) as [msg|] eqn:Hlast; [congruence|].
  by apply last_None in Hlast.
Qed.

(** X9.  The constructor raises [IndexError] exactly when the list of
    agents is empty and the name is one that [tf.Module] accepts: it names
    the module first, then reads the first agent, and only then checks
    anything, so an empty list is never reported as a length mismatch. *)
Theorem init_IndexError_iff_no_agents (mixture_weights : list Q)
    (agents : list (Agent World Loss)) (name : option string) :
  __init__ mixture_weights agents name = Raise IndexError ↔
  agents = [] ∧ valid_module_name name = true.
Proof.
  split; [|by intros [-> Hname]; apply init_no_agents].
  intros Hraise. destruct (valid_module_name name) eqn:Hname.
  - split; [|done]. destruct agents as [|first rest]; [done|].
    pose proof (init_last_failing mixture_weights first (first :: rest) name
                  Hname eq_refl) as Hinit.
    destruct (last (failing_messages _)) as [msg|]; [congruence|].
    destruct Hinit as [self Hself]. congruence.
  - destruct (init_invalid_name mixture_weights agents name Hname)
      as (text & _ & Htext). congruence.
Qed.

(** X10.  A constructed coordinator keeps what it was given and satisfies
    what [_train] relies on: it goes by the name it was given, an
    identifier, or by [static_mixture_agent] when it was given none; it
    holds the agents and the weights as passed, their common count, which is
    at least 1, one mixture policy over the agents' collect policies used
    both as policy and as collect policy, and specs with which the specs of
    every one of its agents compare equal in Python. *)
Theorem init_establishes_invariant (mixture_weights : list Q)
    (agents : list (Agent World Loss)) (name : option string)
    (self : StaticMixtureAgent World Loss) :
  __init__ mixture_weights agents name = Ok self →
  _agents self = agents ∧
  _mixture_weights self = mixture_weights ∧
  valid_module_name name = true ∧
  _name self = default "static_mixture_agent" name ∧
  _num_agents self = length (_agents self) ∧
  length (_mixture_weights self) = _num_agents self ∧
  0 < _num_agents self ∧
  _policy self = {| mp_mixture_weights := mixture_weights;
                    mp_policies := collect_policy <$> agents |} ∧
  _collect_policy self = _policy self ∧
  ∀ agent, agent ∈ _agents self →
    py_eqb (action_spec agent) (_action_spec self) = true ∧
    time_step_spec_eqb (time_step_spec agent) (_time_step_spec self) = true ∧
    py_eqb (info_spec (policy agent)) (_original_info_spec self) = true.
Proof.
  intros Hok.
  destruct (init_Ok_agents _ _ _ _ Hok) as (_ & _ & Hne).
  destruct agents as [|first rest] eqn:Hagents; [done|].
  rewrite <-Hagents in *.
  assert (head agents = Some first) as Hhead by (by rewrite Hagents).
  pose proof (init_Ok_no_failing_check _ _ _ _ _ Hhead Hok) as Hnone.
  pose proof (elem_of_failing_validation mixture_weights first agents) as Hmsgs.
  rewrite Hnone in Hmsgs.
  assert (length mixture_weights = length agents) as Hlen.
  { destruct (decide (length mixture_weights = length agents)) as [|Hdiff]; [done|].
    exfalso. eapply elem_of_nil, Hmsgs; [done|]. left. eauto. }
  destruct (init_Ok_inv _ _ _ _ _ Hhead Hok) as [Hname ->]. cbn.
  repeat (split; [done|]).
  split; [rewrite Hagents; simpl; lia|]. split; [done|]. split; [done|].
  intros agent Hin.
  assert (first ∈ agents) as Hfirst by (rewrite Hagents; by left).
  split; [|split].
  - destruct (py_eqb (action_spec agent) (action_spec first)) eqn:E; [done|].
    exfalso. eapply elem_of_nil, Hmsgs; [done|]. right. left. split; [done|].
    by exists agent, first.
  - destruct (time_step_spec_eqb (time_step_spec agent) (time_step_spec first)) eqn:E;
      [done|].
    exfalso. eapply elem_of_nil, Hmsgs; [done|]. right. right. left. split; [done|].
    by exists agent, first.
  - destruct (py_eqb (info_spec (policy agent)) (info_spec (policy first))) eqn:E;
      [done|].
    exfalso. eapply elem_of_nil, Hmsgs; [done|]. right. right. right. split; [done|].
    by exists agent, first.
Qed.
End ConstructorFurther.

(** ** Every run of the training step *)

Lemma getitem_key_missing {A} (keys : list string) (kids : list (nest A)) key :
  key ∉ keys → getitem_key (Node (PyDict keys) kids) key = Raise (KeyError key).
Proof.
  intros Hkey. simpl.
  destruct (list_find (λ n, n = key) keys) as [[i n]|] eqn:Hfind; [|done].
  apply list_find_Some in Hfind as (Hi & -> & _).
  exfalso. apply Hkey. by eapply list_elem_of_lookup_2.
Qed.

Section TrainFurther.
Context {World Loss : Type}.
Variable loss_add : Loss → Loss → Loss.
Variable loss_zero : Loss.
Variable flatten_multi_batched_nested_tensors :
  nest tensor → nest TensorSpec → result (nest tensor * list nat).
Variable batch_leaf : tensor → tensor.

Implicit Types (self : StaticMixtureAgent World Loss)
  (calls log : list (Call Loss)) (world : World).

(** In the loop, every invocation but the last one returned. *)
Lemma train_loop_ok_before_last self observations actions infos rewards
    ks acc world log :
  ∃ r calls world',
    for_range ks (train_body loss_add self observations actions infos rewards)
              acc (world, log) = (r, (world', log ++ calls)) ∧
    ∀ j c, calls !! j = Some c → S j < length calls → is_Ok (call_result c).
Proof.
  revert acc world log. induction ks as [|k ks IH]; intros acc world log.
  { exists (Ok acc), [], world. rewrite app_nil_r. by split. }
  cbn [for_range]. unfold bindM at 1. rewrite train_body_step.
  destruct (planned_experience _ k) as [experience|e].
  2:{ exists (Raise e), [], world. rewrite app_nil_r. by split. }
  destruct (getitem (_agents self) k) as [agent|e].
  2:{ exists (Raise e), [], world. rewrite app_nil_r. by split. }
  cbn zeta. destruct (train agent experience world) as [[loss_info|e] world1];
    cbn [fst snd].
  - destruct (IH (loss_add acc (loss loss_info)) world1
                 (log ++ [{| call_agent := k; call_experience := experience;
                             call_result := Ok loss_info |}]))
      as (r & calls & world' & Hrun & Hok).
    eexists r, (_ :: calls), world'. rewrite Hrun, <-app_assoc.
    split; [done|]. intros [|j] c Hc Hj; simplify_eq/=; [by eexists|].
    apply (Hok j); [done|lia].
  - eexists (Raise e), [_], world1. split; [done|].
    intros [|j] c Hc Hj; simpl in *; [lia|done].
Qed.

Lemma train_ok_before_last self experience weights world log r world' calls :
  _train loss_add loss_zero flatten_multi_batched_nested_tensors batch_leaf
         self experience weights (world, log) = (r, (world', log ++ calls)) →
  ∀ j c, calls !! j = Some c → S j < length calls → is_Ok (call_result c).
Proof.
  rewrite train_route.
  destruct (route _ _ self experience) as [[[[observations actions] infos] rewards]|e].
  2:{ intros [= _ _ Hlog]. rewrite <-(app_nil_r log) in Hlog at 1.
      apply app_inv_head in Hlog as <-. done. }
  destruct (train_loop_ok_before_last self observations actions infos rewards
              (seq 0 (_num_agents self)) loss_zero world log)
    as (r0 & calls0 & world0 & Hrun & Hok).
  unfold bindM. rewrite Hrun.
  destruct r0 as [total|e]; intros [= _ _ Hlog];
    apply app_inv_head in Hlog as <-; done.
Qed.

(** X12.  In every run, whether it returns or raises and whatever the
    batch, [_train] trains sub-agents [0, 1, 2, ...] in this order, each at
    most once and never more than [N] of them, each in the world its
    predecessor left; a run that returns trained all [N]. *)
Theorem train_invokes_in_index_order self experience weights
    world log r world' log' :
  _train loss_add loss_zero flatten_multi_batched_nested_tensors batch_leaf
         self experience weights (world, log) = (r, (world', log')) →
  ∃ calls,
    log' = log ++ calls ∧
    call_agent <$> calls = seq 0 (length calls) ∧
    length calls ≤ _num_agents self ∧
    (is_Ok r → length calls = _num_agents self) ∧
    calls_from (_agents self) world calls world'.
Proof.
  intros Hrun.
  destruct (train_spec loss_add loss_zero flatten_multi_batched_nested_tensors
              batch_leaf self experience weights world log)
    as (r0 & calls & world0 & Hrun0 & Hfrom & Hroute).
  rewrite Hrun in Hrun0. injection Hrun0 as -> -> ->.
  exists calls. split; [done|].
  destruct (route _ _ self experience) as [groups|e].
  2:{ destruct Hroute as [-> ->]. repeat split; try done; [simpl; lia|].
      by intros [? ?]. }
  destruct Hroute as [Hplanned Hr].
  assert (length calls ≤ _num_agents self) as Hle.
  { apply Forall2_length in Hplanned.
    rewrite length_take, length_seq in Hplanned. lia. }
  split; [|split; [done|split; [|done]]].
  - rewrite take_seq, Nat.min_l in Hplanned by done.
    apply list_eq. intros j. rewrite list_lookup_fmap.
    destruct (seq 0 (length calls) !! j) as [k|] eqn:Hk.
    + destruct (Forall2_lookup_l _ _ _ _ _ Hplanned Hk) as (c & Hc & Hkc & _).
      rewrite Hc. simpl. by rewrite Hkc.
    + apply lookup_ge_None in Hk. rewrite length_seq in Hk.
      by rewrite (lookup_ge_None_2 calls).
  - intros [loss_info ->]. by destruct Hr as [? _].
Qed.


(** X14.  A mixture_agent_id outside [0, N) anywhere in the batch makes
    [_train] raise [InvalidArgumentError] before any sub-agent is trained:
    the world and the record of invocations are as before. *)
Theorem train_rejects_out_of_range_agent_id self experience weights world log
    labels flat_reward flat_action flat_observation original_infos
    agent_id subpolicy_info d1 d2 d3 d4 d5 :
  flatten_multi_batched_nested_tensors
    (reward experience) (ts_reward (_time_step_spec self))
    = Ok (Leaf flat_reward, d1) →
  flatten_multi_batched_nested_tensors
    (action experience) (_action_spec self) = Ok (flat_action, d2) →
  flatten_multi_batched_nested_tensors
    (observation experience) (ts_observation (_time_step_spec self))
    = Ok (flat_observation, d3) →
  getitem_key (policy_info experience) MIXTURE_AGENT_ID = Ok agent_id →
  flatten_multi_batched_nested_tensors
    agent_id (ts_reward (_time_step_spec self)) = Ok (Leaf (vector labels), d4) →
  getitem_key (policy_info experience) SUBPOLICY_INFO = Ok subpolicy_info →
  flatten_multi_batched_nested_tensors
    subpolicy_info (_original_info_spec self) = Ok (original_infos, d5) →
  ¬ labels_in_range (_num_agents self) labels →
  _train loss_add loss_zero flatten_multi_batched_nested_tensors batch_leaf
         self experience weights (world, log)
    = (Raise InvalidArgumentError, (world, log)).
Proof.
  intros H1 H2 H3 H4 H5 H6 H7 Hrange. rewrite train_route. unfold route.
  rewrite H1. cbn [bindR]. rewrite H2. cbn [bindR]. rewrite H3. cbn [bindR].
  rewrite H4. cbn [bindR]. rewrite H5. cbn [bindR]. rewrite H6. cbn [bindR].
  rewrite H7. cbn [bindR].
  destruct (_dynamic_partition_of_nested_tensors original_infos _ _)
    as [infos|e] eqn:Hinfos; cbn [bindR].
  - destruct (_dynamic_partition_of_nested_tensors (Leaf flat_reward) _ _)
      as [rewards|e] eqn:Hrewards; cbn [bindR].
    + apply partition_vector_Ok_inv in Hrewards as [?|(_ & ? & _)]; done.
    + apply partition_Raise_inv in Hrewards as [_ [->|[_ (c & kids & ?)]]]; done.
  - apply partition_Raise_inv in Hinfos as [_ [->|[_ (c & kids & ?)]]]; done.
Qed.

(** X15.  When the policy info of the batch is a dict without the key
    mixture_agent_id (and reward, action and observation flatten),
    [_train] raises [KeyError] for that key and trains no sub-agent. *)
Theorem train_missing_agent_id_key self experience weights world log
    keys kids flat_reward flat_action flat_observation d1 d2 d3 :
  flatten_multi_batched_nested_tensors
    (reward experience) (ts_reward (_time_step_spec self)) = Ok (flat_reward, d1) →
  flatten_multi_batched_nested_tensors
    (action experience) (_action_spec self) = Ok (flat_action, d2) →
  flatten_multi_batched_nested_tensors
    (observation experience) (ts_observation (_time_step_spec self))
    = Ok (flat_observation, d3) →
  policy_info experience = Node (PyDict keys) kids →
  MIXTURE_AGENT_ID ∉ keys →
  _train loss_add loss_zero flatten_multi_batched_nested_tensors batch_leaf
         self experience weights (world, log)
    = (Raise (KeyError MIXTURE_AGENT_ID), (world, log)).
Proof.
  intros H1 H2 H3 Hinfo Hkey. rewrite train_route. unfold route.
  rewrite H1. cbn [bindR]. rewrite H2. cbn [bindR]. rewrite H3. cbn [bindR].
  rewrite Hinfo, getitem_key_missing by done. done.
Qed.

(** X16.  All the routing comes before any training: when the batch cannot
    be routed (some part does not flatten, a key is missing or a partition
    fails), [_train] raises and no sub-agent is trained. *)
Theorem train_unroutable_batch_trains_nobody self experience weights world log :
  (∀ observations actions infos rewards,
     ¬ routed_groups flatten_multi_batched_nested_tensors self experience
                     observations actions infos rewards) →
  ∃ e,
    _train loss_add loss_zero flatten_multi_batched_nested_tensors batch_leaf
           self experience weights (world, log) = (Raise e, (world, log)).
Proof.
  intros Hnot. rewrite train_route.
  destruct (route _ _ self experience) as [groups|e] eqn:Hroute; [|by exists e].
  apply route_Ok_inv in Hroute as (o & a & i & r & Hrouted & _).
  by destruct (Hnot o a i r).
Qed.
End TrainFurther.

(** ** Well-formed batches: the two ways the training step can end badly *)

Lemma valid_partition_is_Ok (x : nest tensor) labels N M :
  N ≠ 0 → row_aligned M x → length labels = M → labels_in_range N labels →
  ∃ groups,
    _dynamic_partition_of_nested_tensors x (Leaf (vector labels)) N = Ok groups ∧
    (flatten x = [] → groups = []).
Proof.
  intros HN Halign Hlen Hrange.
  destruct (decide (flatten x = [])) as [Hleaf|Hleaf].
  - exists []. split; [by apply partition_leafless|done].
  - eexists. split; [by apply (partition_row_aligned x labels N M)|done].
Qed.

Section TrainEndings.
Context {World Loss : Type}.
Variable loss_add : Loss → Loss → Loss.
Variable loss_zero : Loss.
Variable flatten_multi_batched_nested_tensors :
  nest tensor → nest TensorSpec → result (nest tensor * list nat).
Variable batch_leaf : tensor → tensor.

Implicit Types (self : StaticMixtureAgent World Loss)
  (calls log : list (Call Loss)) (world : World).

(** X17.  On a well-formed batch for a coordinator with at least one
    sub-agent, if the flattened action, observation or sub-policy info has
    no leaf, [_train] raises [IndexError] in the first turn of its loop and
    trains no sub-agent: the partition of a structure without leaves has no
    group to look up. *)
Theorem train_raises_on_leafless_part self experience weights world log
    labels M flat_reward flat_action flat_observation original_infos :
  _num_agents self ≠ 0 →
  valid_batch flatten_multi_batched_nested_tensors self experience labels M
              flat_reward flat_action flat_observation original_infos →
  flatten flat_action = [] ∨ flatten flat_observation = [] ∨
    flatten original_infos = [] →
  _train loss_add loss_zero flatten_multi_batched_nested_tensors batch_leaf
         self experience weights (world, log) = (Raise IndexError, (world, log)).
Proof.
  intros HN (agent_id & subpolicy_info & d1 & d2 & d3 & d4 & d5 &
             H1 & H2 & H3 & H4 & H5 & H6 & H7 &
             Hr & Ha & Ho & Hi & Hlen & Hrange) Hleafless.
  destruct (valid_partition_is_Ok original_infos labels _ M HN Hi Hlen Hrange)
    as (ig & Hig & Hig0).
  destruct (valid_partition_is_Ok (Leaf flat_reward) labels _ M HN) as (rg & Hrg & _);
    [by repeat constructor|done..|].
  destruct (valid_partition_is_Ok flat_action labels _ M HN Ha Hlen Hrange)
    as (ag & Hag & Hag0).
  destruct (valid_partition_is_Ok flat_observation labels _ M HN Ho Hlen Hrange)
    as (og & Hog & Hog0).
  assert (routed_groups flatten_multi_batched_nested_tensors self experience
                        og ag ig rg) as Hrouted.
  { exists (Leaf flat_reward), flat_action, flat_observation,
      (Leaf (vector labels)), original_infos, agent_id, subpolicy_info,
      d1, d2, d3, d4, d5. auto 15. }
  rewrite train_route, (routed_groups_route _ batch_leaf _ _ _ _ _ _ Hrouted).
  destruct (_num_agents self) as [|n]; [done|].
  cbn [seq for_range]. unfold bindM. rewrite train_body_step.
  unfold planned_experience, getitem.
  cbn [batch_nested_tensors map_structure getitem_index]. unfold getitem.
  destruct Hleafless as [Hl|[Hl|Hl]].
  - rewrite (Hag0 Hl). destruct (_ !! 0); cbn [bindR]; done.
  - rewrite (Hog0 Hl). done.
  - rewrite (Hig0 Hl). destruct (_ !! 0); cbn [bindR]; [|done].
    destruct (_ !! 0); cbn [bindR]; done.
Qed.

(** X18.  On a well-formed batch whose routed structures have leaves, the
    only way [_train] raises is that a sub-agent's own [train] raised: the
    exception is passed on unchanged, the sub-agents before the failing one
    were trained in order and returned (their effects stay), and the ones
    after it are not trained. *)
Theorem train_failure_comes_from_sub_agent mixture_weights agents name
    self experience weights labels M
    flat_reward flat_action flat_observation original_infos
    world log e world' log' :
  __init__ mixture_weights agents name = Ok self →
  valid_batch flatten_multi_batched_nested_tensors self experience labels M
              flat_reward flat_action flat_observation original_infos →
  flatten flat_action ≠ [] → flatten flat_observation ≠ [] →
  flatten original_infos ≠ [] →
  _train loss_add loss_zero flatten_multi_batched_nested_tensors batch_leaf
         self experience weights (world, log) = (Raise e, (world', log')) →
  ∃ calls c,
    log' = log ++ calls ++ [c] ∧
    call_result c = Raise e ∧
    call_agent <$> calls ++ [c] = seq 0 (S (length calls)) ∧
    length calls < length agents ∧
    Forall (λ c, is_Ok (call_result c)) calls ∧
    calls_from agents world (calls ++ [c]) world'.
Proof.
  intros Hinit Hvalid Hla Hlo Hli Hrun.
  apply init_Ok_agents in Hinit as (Hagents & HN & Hne).
  assert (_num_agents self ≠ 0) as HN0.
  { rewrite HN. by destruct agents. }
  pose proof (valid_batch_routed flatten_multi_batched_nested_tensors
                self experience labels M flat_reward flat_action flat_observation
                original_infos HN0 Hvalid Hla Hlo Hli) as Hrouted.
  apply (routed_groups_route _ batch_leaf) in Hrouted.
  destruct (train_spec loss_add loss_zero flatten_multi_batched_nested_tensors
              batch_leaf self experience weights world log)
    as (r & calls & world0 & Hrun0 & Hfrom & Hroute).
  pose proof (train_ok_before_last loss_add loss_zero
                flatten_multi_batched_nested_tensors batch_leaf
                self experience weights world log r world0 calls Hrun0) as Hbefore.
  rewrite Hrun in Hrun0. injection Hrun0 as <- -> ->.
  rewrite Hrouted in Hroute. destruct Hroute as [Hplanned Hr].
  rewrite Hagents in *.
  destruct Hr as [(calls0 & c & -> & Hc)|(Hlt & [Hplan|Hagent])].
  - exists calls0, c. split; [done|]. split; [done|].
    assert (length (calls0 ++ [c]) ≤ _num_agents self) as Hle.
    { apply Forall2_length in Hplanned.
      rewrite length_take, length_seq in Hplanned. lia. }
    rewrite length_app in Hle. simpl in Hle.
    split; [|split; [lia|split; [|done]]].
    + rewrite take_seq, Nat.min_l in Hplanned by (rewrite length_app; simpl; lia).
      rewrite length_app in Hplanned. simpl in Hplanned.
      replace (length calls0 + 1) with (S (length calls0)) in Hplanned by lia.
      apply list_eq. intros j. rewrite list_lookup_fmap.
      destruct (seq 0 (S (length calls0)) !! j) as [k|] eqn:Hk.
      * destruct (Forall2_lookup_l _ _ _ _ _ Hplanned Hk) as (c' & Hc' & Hkc & _).
        rewrite Hc'. simpl. by rewrite Hkc.
      * apply lookup_ge_None in Hk. rewrite length_seq in Hk.
        rewrite (lookup_ge_None_2 (calls0 ++ [c])); [done|].
        rewrite length_app. simpl. lia.
    + apply Forall_lookup. intros j c' Hc'. apply (Hbefore j).
      * by apply lookup_app_l_Some.
      * apply lookup_lt_Some in Hc'. rewrite length_app. simpl. lia.
  - rewrite planned_experience_valid in Hplan by done. done.
  - unfold getitem in Hagent. rewrite HN in Hlt.
    destruct (lookup_lt_is_Some_2 agents _ Hlt) as [a Ha]. by rewrite Ha in Hagent.
Qed.
End TrainEndings.

(** ** The further properties at concrete inputs *)

Lemma partition_groups_have_input_shape_witness :
  ∃ groups g,
    _dynamic_partition_of_nested_tensors
      example_nested (Leaf (vector example_labels)) 2 = Ok groups ∧
    g ∈ groups ∧ shape g = shape example_nested.
Proof.
  eexists _, _. split; [reflexivity|]. split; [by left|].
  eapply (partition_groups_have_input_shape
            example_nested (Leaf (vector example_labels)) 2);
    [reflexivity|by left].
Defined.

Lemma partition_number_of_groups_witness :
  ∃ groups,
    _dynamic_partition_of_nested_tensors
      example_nested (Leaf (vector example_labels)) 2 = Ok groups ∧
    length groups = if decide (flatten example_nested = []) then 0 else 2.
Proof.
  eexists. split; [reflexivity|].
  apply (partition_number_of_groups example_nested (Leaf (vector example_labels)) 2).
  reflexivity.
Defined.

Lemma partition_raises_only_from_dynamic_partition_witness :
  _dynamic_partition_of_nested_tensors
    example_nested (Leaf (vector [0; 1; 0]%Z)) 2 = Raise InvalidArgumentError ∧
  flatten example_nested ≠ [] ∧ InvalidArgumentError = InvalidArgumentError.
Proof.
  assert (_dynamic_partition_of_nested_tensors
            example_nested (Leaf (vector [0; 1; 0]%Z)) 2
          = Raise InvalidArgumentError) as Hraise by reflexivity.
  split; [exact Hraise|].
  exact (partition_raises_only_from_dynamic_partition _ _ _ _ Hraise).
Defined.

Lemma partition_rejects_invalid_call_witness :
  (flatten example_nested ≠ [] ∧
   ¬ (2 ≠ 0 ∧ labels_in_range 2 [0; 2; 0; 1]%Z ∧
      row_aligned (length [0; 2; 0; 1]%Z) example_nested)) ∧
  _dynamic_partition_of_nested_tensors
    example_nested (Leaf (vector [0; 2; 0; 1]%Z)) 2 = Raise InvalidArgumentError.
Proof.
  assert (flatten example_nested ≠ [] ∧
          ¬ (2 ≠ 0 ∧ labels_in_range 2 [0; 2; 0; 1]%Z ∧
             row_aligned (length [0; 2; 0; 1]%Z) example_nested)) as Hhyps.
  { split; [discriminate|]. intros (_ & Hrange & _).
    apply Forall_cons in Hrange as [_ Hrange].
    apply Forall_cons in Hrange as [Hl _]. simpl in Hl. lia. }
  split; [exact Hhyps|]. destruct Hhyps as [H1 H2].
  exact (partition_rejects_invalid_call example_nested [0; 2; 0; 1]%Z 2 H1 H2).
Defined.

Lemma partition_keeps_the_rows_witness :
  (0 < 2 ∧ row_aligned 4 example_nested ∧ length example_labels = 4 ∧
   labels_in_range 2 example_labels) ∧
  ∃ groups,
    _dynamic_partition_of_nested_tensors
      example_nested (Leaf (vector example_labels)) 2 = Ok groups ∧
    ∀ j rows, flatten example_nested !! j = Some (Rows rows) →
      mjoin ((λ g, leaf_rows g j) <$> groups) ≡ₚ rows.
Proof.
  assert (0 < 2 ∧ row_aligned 4 example_nested ∧ length example_labels = 4 ∧
          labels_in_range 2 example_labels) as Hhyps.
  { split; [lia|]. split; [by repeat constructor|]. split; [reflexivity|].
    repeat constructor; simpl; lia. }
  split; [exact Hhyps|]. destruct Hhyps as (H1 & H2 & H3 & H4).
  exact (partition_keeps_the_rows example_nested example_labels 2 4 H1 H2 H3 H4).
Defined.

Lemma partition_into_one_group_witness :
  (flatten example_nested ≠ [] ∧
   row_aligned (length [0; 0; 0; 0]%Z) example_nested ∧
   Forall (λ l, l = 0%Z) [0; 0; 0; 0]%Z) ∧
  _dynamic_partition_of_nested_tensors
    example_nested (Leaf (vector [0; 0; 0; 0]%Z)) 1 = Ok [example_nested].
Proof.
  assert (flatten example_nested ≠ [] ∧
          row_aligned (length [0; 0; 0; 0]%Z) example_nested ∧
          Forall (λ l, l = 0%Z) [0; 0; 0; 0]%Z) as Hhyps.
  { split; [discriminate|]. split; by repeat constructor. }
  split; [exact Hhyps|]. destruct Hhyps as (H1 & H2 & H3).
  exact (partition_into_one_group example_nested [0; 0; 0; 0]%Z H1 H2 H3).
Defined.

Lemma partition_groups_are_row_aligned_witness :
  (0 < 2 ∧ row_aligned 4 example_nested ∧ length example_labels = 4 ∧
   labels_in_range 2 example_labels) ∧
  ∃ groups,
    _dynamic_partition_of_nested_tensors
      example_nested (Leaf (vector example_labels)) 2 = Ok groups ∧
    ∀ k g, groups !! k = Some g →
      row_aligned (length (filter (λ l, l = Z.of_nat k) example_labels)) g.
Proof.
  assert (0 < 2 ∧ row_aligned 4 example_nested ∧ length example_labels = 4 ∧
          labels_in_range 2 example_labels) as Hhyps.
  { split; [lia|]. split; [by repeat constructor|]. split; [reflexivity|].
    repeat constructor; simpl; lia. }
  split; [exact Hhyps|]. destruct Hhyps as (H1 & H2 & H3 & H4).
  exact (partition_groups_are_row_aligned example_nested example_labels 2 4
           H1 H2 H3 H4).
Defined.

Lemma init_establishes_invariant_witness :
  __init__ (unit_weights 2) two_agents None = Ok two_agent_coordinator ∧
  _agents two_agent_coordinator = two_agents ∧
  _mixture_weights two_agent_coordinator = unit_weights 2 ∧
  valid_module_name None = true ∧
  _name two_agent_coordinator = "static_mixture_agent"%string ∧
  _num_agents two_agent_coordinator = length (_agents two_agent_coordinator) ∧
  length (_mixture_weights two_agent_coordinator) = _num_agents two_agent_coordinator ∧
  0 < _num_agents two_agent_coordinator ∧
  _policy two_agent_coordinator =
    {| mp_mixture_weights := unit_weights 2;
       mp_policies := collect_policy <$> two_agents |} ∧
  _collect_policy two_agent_coordinator = _policy two_agent_coordinator ∧
  ∀ agent, agent ∈ _agents two_agent_coordinator →
    py_eqb (action_spec agent) (_action_spec two_agent_coordinator) = true ∧
    time_step_spec_eqb (time_step_spec agent)
                       (_time_step_spec two_agent_coordinator) = true ∧
    py_eqb (info_spec (policy agent))
           (_original_info_spec two_agent_coordinator) = true.
Proof.
  assert (__init__ (unit_weights 2) two_agents None = Ok two_agent_coordinator)
    as Hinit by reflexivity.
  split; [exact Hinit|].
  exact (init_establishes_invariant _ _ _ _ Hinit).
Defined.

Ltac solve_valid_batch :=
  eexists _, _, _, _, _, _, _;
  do 7 (split; [vm_compute; reflexivity|]);
  split; [reflexivity|];
  do 3 (split; [by repeat constructor|]);
  split; [reflexivity|]; repeat constructor; simpl; lia.

Lemma train_on_valid_batch_witness :
  let experience := example_experience [0; 1; 0; 1]%Z one_number_values in
  (__init__ (unit_weights 2) two_agents None = Ok two_agent_coordinator ∧
   valid_batch flatten_outer_two two_agent_coordinator experience [0; 1; 0; 1]%Z 4
     example_flat_reward example_flat_action example_flat_observation
     example_flat_infos ∧
   flatten example_flat_action ≠ [] ∧ flatten example_flat_observation ≠ [] ∧
   flatten example_flat_infos ≠ [] ∧
   (∀ agent e w, agent ∈ two_agents → is_Ok (train agent e w).1)) ∧
  ∃ calls world',
    _train Z.add 0%Z flatten_outer_two add_batch_dim
           two_agent_coordinator experience None (0, []) =
      (Ok {| loss := fold_left Z.add (returned_losses calls) 0%Z; extra := tt |},
       (world', [] ++ calls)) ∧
    calls_from two_agents 0 calls world' ∧
    call_agent <$> calls = seq 0 (length two_agents) ∧
    length (returned_losses calls) = length two_agents ∧
    ∀ k c, calls !! k = Some c →
      call_experience c =
        routed_experience add_batch_dim [0; 1; 0; 1]%Z example_flat_reward
          example_flat_action example_flat_observation example_flat_infos k ∧
      ∃ loss_info, call_result c = Ok loss_info ∧
                   returned_losses calls !! k = Some (loss loss_info).
Proof.
  intros experience.
  assert (__init__ (unit_weights 2) two_agents None = Ok two_agent_coordinator ∧
          valid_batch flatten_outer_two two_agent_coordinator experience
            [0; 1; 0; 1]%Z 4 example_flat_reward example_flat_action
            example_flat_observation example_flat_infos ∧
          flatten example_flat_action ≠ [] ∧ flatten example_flat_observation ≠ [] ∧
          flatten example_flat_infos ≠ [] ∧
          (∀ agent e w, agent ∈ two_agents → is_Ok (train agent e w).1)) as Hhyps.
  { split; [reflexivity|]. split; [solve_valid_batch|].
    do 3 (split; [discriminate|]).
    unfold two_agents. intros agent e w Hin.
    repeat (apply elem_of_cons in Hin as [->|Hin]);
      [by eexists..|by apply elem_of_nil in Hin]. }
  split; [exact Hhyps|]. destruct Hhyps as (H1 & H2 & H3 & H4 & H5 & H6).
  exact (train_on_valid_batch Z.add 0%Z flatten_outer_two add_batch_dim
           _ _ _ _ experience None _ _ _ _ _ _ 0 [] H1 H2 H3 H4 H5 H6).
Defined.

Lemma train_invokes_in_index_order_witness :
  ∃ r world' log',
    example_train breaking_coordinator
      (example_experience [0; 1; 2; 1]%Z one_number_values) None (0, [])
      = (r, (world', log')) ∧
    ∃ calls,
      log' = [] ++ calls ∧
      call_agent <$> calls = seq 0 (length calls) ∧
      length calls ≤ _num_agents breaking_coordinator ∧
      (is_Ok r → length calls = _num_agents breaking_coordinator) ∧
      calls_from (_agents breaking_coordinator) 0 calls world'.
Proof.
  eexists _, _, _. split; [vm_compute; reflexivity|].
  eapply (train_invokes_in_index_order Z.add 0%Z flatten_outer_two add_batch_dim
            breaking_coordinator
            (example_experience [0; 1; 2; 1]%Z one_number_values) None 0 []).
  vm_compute. reflexivity.
Defined.


Lemma train_rejects_out_of_range_agent_id_witness :
  ¬ labels_in_range (_num_agents two_agent_coordinator) [0; 1; 2; 1]%Z ∧
  _train Z.add 0%Z flatten_outer_two add_batch_dim two_agent_coordinator
         (example_experience [0; 1; 2; 1]%Z one_number_values) None (0, [])
    = (Raise InvalidArgumentError, (0, [])).
Proof.
  assert (¬ labels_in_range (_num_agents two_agent_coordinator) [0; 1; 2; 1]%Z)
    as Hrange.
  { intros Hrange. apply Forall_cons in Hrange as [_ Hrange].
    apply Forall_cons in Hrange as [_ Hrange].
    apply Forall_cons in Hrange as [Hl _]. simpl in Hl. lia. }
  split; [exact Hrange|].
  eapply (train_rejects_out_of_range_agent_id Z.add 0%Z flatten_outer_two
            add_batch_dim two_agent_coordinator
            (example_experience [0; 1; 2; 1]%Z one_number_values) None 0 []
            [0; 1; 2; 1]%Z example_flat_reward example_flat_action
            example_flat_observation example_flat_infos);
    try (vm_compute; reflexivity).
  exact Hrange.
Defined.

Lemma train_missing_agent_id_key_witness :
  (policy_info experience_without_agent_id =
     Node (PyDict [SUBPOLICY_INFO]) [one_number_values] ∧
   MIXTURE_AGENT_ID ∉ [SUBPOLICY_INFO]) ∧
  _train Z.add 0%Z flatten_outer_two add_batch_dim two_agent_coordinator
         experience_without_agent_id None (0, [])
    = (Raise (KeyError MIXTURE_AGENT_ID), (0, [])).
Proof.
  assert (policy_info experience_without_agent_id =
            Node (PyDict [SUBPOLICY_INFO]) [one_number_values] ∧
          MIXTURE_AGENT_ID ∉ [SUBPOLICY_INFO]) as [Hinfo Hkey].
  { split; [reflexivity|]. intros Hin.
    apply elem_of_cons in Hin as [Heq|Hin]; [discriminate|].
    by apply elem_of_nil in Hin. }
  split; [by split|].
  eapply (train_missing_agent_id_key Z.add 0%Z flatten_outer_two add_batch_dim
            two_agent_coordinator experience_without_agent_id None 0 []
            [SUBPOLICY_INFO] [one_number_values]
            (Leaf example_flat_reward) example_flat_action example_flat_observation);
    try (vm_compute; reflexivity); done.
Defined.

Lemma train_unroutable_batch_trains_nobody_witness :
  (∀ observations actions infos rewards,
     ¬ routed_groups flatten_outer_two two_agent_coordinator
         experience_without_agent_id observations actions infos rewards) ∧
  ∃ e,
    _train Z.add 0%Z flatten_outer_two add_batch_dim two_agent_coordinator
           experience_without_agent_id None (0, []) = (Raise e, (0, [])).
Proof.
  assert (∀ observations actions infos rewards,
            ¬ routed_groups flatten_outer_two two_agent_coordinator
                experience_without_agent_id observations actions infos rewards)
    as Hnot.
  { intros o a i r (? & ? & ? & ? & ? & ? & ? & ? & ? & ? & ? & ? &
                    _ & _ & _ & Hkey & _).
    vm_compute in Hkey. discriminate. }
  split; [exact Hnot|].
  exact (train_unroutable_batch_trains_nobody Z.add 0%Z flatten_outer_two
           add_batch_dim two_agent_coordinator experience_without_agent_id
           None 0 [] Hnot).
Defined.

Lemma train_raises_on_leafless_part_witness :
  let experience := example_experience [0; 1; 0; 1]%Z no_info_values in
  (_num_agents two_silent_agent_coordinator ≠ 0 ∧
   valid_batch flatten_outer_two two_silent_agent_coordinator experience
     [0; 1; 0; 1]%Z 4 example_flat_reward example_flat_action
     example_flat_observation no_info_values ∧
   (flatten example_flat_action = [] ∨ flatten example_flat_observation = [] ∨
    flatten no_info_values = [])) ∧
  _train Z.add 0%Z flatten_outer_two add_batch_dim two_silent_agent_coordinator
         experience None (0, []) = (Raise IndexError, (0, [])).
Proof.
  intros experience.
  assert (_num_agents two_silent_agent_coordinator ≠ 0 ∧
          valid_batch flatten_outer_two two_silent_agent_coordinator experience
            [0; 1; 0; 1]%Z 4 example_flat_reward example_flat_action
            example_flat_observation no_info_values ∧
          (flatten example_flat_action = [] ∨ flatten example_flat_observation = [] ∨
           flatten no_info_values = [])) as Hhyps.
  { split; [discriminate|]. split; [solve_valid_batch|]. right. right. reflexivity. }
  split; [exact Hhyps|]. destruct Hhyps as (H1 & H2 & H3).
  exact (train_raises_on_leafless_part Z.add 0%Z flatten_outer_two add_batch_dim
           _ experience None 0 [] _ _ _ _ _ _ H1 H2 H3).
Defined.

Lemma train_failure_comes_from_sub_agent_witness :
  let experience := example_experience [0; 1; 2; 1]%Z one_number_values in
  ∃ world' log',
    (__init__ (unit_weights 3) breaking_agents None = Ok breaking_coordinator ∧
     valid_batch flatten_outer_two breaking_coordinator experience
       [0; 1; 2; 1]%Z 4 example_flat_reward example_flat_action
       example_flat_observation example_flat_infos ∧
     flatten example_flat_action ≠ [] ∧ flatten example_flat_observation ≠ [] ∧
     flatten example_flat_infos ≠ [] ∧
     _train Z.add 0%Z flatten_outer_two add_batch_dim breaking_coordinator
            experience None (0, [])
       = (Raise (ValueError "loss is not finite"), (world', log'))) ∧
    ∃ calls c,
      log' = [] ++ calls ++ [c] ∧
      call_result c = Raise (ValueError "loss is not finite") ∧
      call_agent <$> calls ++ [c] = seq 0 (S (length calls)) ∧
      length calls < length breaking_agents ∧
      Forall (λ c, is_Ok (call_result c)) calls ∧
      calls_from breaking_agents 0 (calls ++ [c]) world'.
Proof.
  intros experience. eexists _, _.
  assert (__init__ (unit_weights 3) breaking_agents None = Ok breaking_coordinator)
    as H1 by reflexivity.
  assert (valid_batch flatten_outer_two breaking_coordinator experience
            [0; 1; 2; 1]%Z 4 example_flat_reward example_flat_action
            example_flat_observation example_flat_infos) as H2
    by solve_valid_batch.
  split.
  { split; [exact H1|]. split; [exact H2|]. do 3 (split; [discriminate|]).
    vm_compute. reflexivity. }
  eapply (train_failure_comes_from_sub_agent Z.add 0%Z flatten_outer_two
            add_batch_dim _ _ _ _ experience None _ _ _ _ _ _ 0 [] _ 2 _ H1 H2);
    try discriminate.
  vm_compute. reflexivity.
Defined.
